(** * Announced-address and FFmpeg-path resolution of [config.template.js]

    A shallow embedding of the helper functions at the end of
    [src/app/src/config.template.js] ([getIPv4], [getLocalIPv4],
    [scanAllInterfaces], [findValidAddress], [getFFmpegPath]) and of the
    module-level constants that feed them, followed by the properties the
    specification states about them.

    Modelling conventions.
    - A JavaScript string is a [string]; interface names, fragments and
      addresses are taken to be ASCII, so [toLowerCase] is the ASCII case
      mapping.
    - [undefined] and [null] are [None]; a value tested by [if (v)] goes
      through [truthy].
    - The object returned by [os.networkInterfaces()] is the list of its
      entries in [Object.entries] order; [ifaces[k]] is the first entry
      named [k].  A real object has pairwise distinct keys; no theorem
      below depends on that.
    - [os.platform()] ranges over the identifiers Node documents.
    - [fs.accessSync] throws when the path is missing; the exception and the
      [try]/[catch] around it are modelled with [Completion].
    - The functions of address resolution come twice: on the table of a host
      whose read returned, with every record well typed ([getLocalIPv4],
      [getIPv4]), and on the host as the process meets it, where the read
      may throw and a record may lack its address ([getLocalIPv4C],
      [getIPv4C]); the two agree whenever the read returns and the address
      is there to be read. *)

From Stdlib Require Import List String Ascii Bool Arith NArith ZArith Lia Permutation.
From Stdlib Require Import DecimalString DecimalN DecimalPos.
Import ListNotations.

Local Open Scope string_scope.
Local Open Scope list_scope.

(** ** JavaScript primitives used by the helpers *)

(** [s.startsWith(p)] *)
Definition startsWith (s p : string) : bool := String.prefix p s.

(** [s.includes(sub)]: [sub] occurs in [s] at some offset. *)
Fixpoint includes (s sub : string) : bool :=
  String.prefix sub s
  || match s with
     | EmptyString => false
     | String _ rest => includes rest sub
     end.

(** The lower-case form of an ASCII character; see the ASCII domain below
    for characters outside ASCII. *)
Definition lowerChar (c : ascii) : ascii :=
  let n := N_of_ascii c in
  if (65 <=? n)%N && (n <=? 90)%N then ascii_of_N (n + 32) else c.

(** [s.toLowerCase()] *)
Fixpoint toLowerCase (s : string) : string :=
  match s with
  | EmptyString => EmptyString
  | String c rest => String (lowerChar c) (toLowerCase rest)
  end.

(** Truthiness of a string-or-undefined value: [undefined], [null] and the
    empty string are falsy. *)
Definition truthy (v : option string) : bool :=
  match v with
  | None => false
  | Some s => negb (s =? EmptyString)
  end.

(** [a || b] on strings. *)
Definition orElse (a : option string) (b : string) : string :=
  match a with
  | Some s => if truthy (Some s) then s else b
  | None => b
  end.

(** Abrupt or normal completion of a statement. *)
Inductive Completion (A : Type) : Type :=
| Normal (a : A)
| Throw (e : string).
Arguments Normal {A} a.
Arguments Throw {A} e.

Definition bind {A B} (c : Completion A) (k : A -> Completion B) : Completion B :=
  match c with
  | Normal a => k a
  | Throw e => Throw e
  end.

(** [try { body } catch (e) { handler }] *)
Definition tryCatch {A} (body : Completion A) (handler : string -> Completion A)
  : Completion A :=
  match body with
  | Normal a => Normal a
  | Throw e => handler e
  end.

Notation "c ;; k" := (bind c (fun _ => k)) (at level 61, right associativity).

(** ** The host *)

(** Values of [os.platform()].  A table access [TABLE[platform]] below is a
    [match] on this type, [None] standing for [undefined] where the table
    has no row. *)
Inductive Platform : Type :=
| aix | android | darwin | freebsd | linux | openbsd | sunos | win32.

(** One element of an interface's address array. *)
Record AddressRecord : Type := mkAddress {
  family : string;
  address : string;
  internal : bool
}.

(** Entries of [os.networkInterfaces()]: interface name, address array. *)
Definition Ifaces : Type := list (string * option (list AddressRecord)).

Record Host : Type := mkHost {
  os_platform : Platform;
  os_networkInterfaces : Ifaces;
  (** does the path exist, as [fs.existsSync] and [fs.accessSync] see it *)
  fs_exists : string -> bool;
  (** [process.env] *)
  process_env : string -> option string
}.

(** [Object.keys(ifaces)] *)
Definition keys (ifaces : Ifaces) : list string := map fst ifaces.

(** [ifaces[k]] *)
Fixpoint lookup (ifaces : Ifaces) (k : string) : option (list AddressRecord) :=
  match ifaces with
  | [] => None
  | (name, addresses) :: rest =>
      if name =? k then addresses else lookup rest k
  end.

(** [fs.accessSync(path)] *)
Definition accessSync (h : Host) (path : string) : Completion unit :=
  if fs_exists h path then Normal tt else Throw "ENOENT".

(** ** Module-level constants *)

Definition PLATFORM (h : Host) : Platform := os_platform h.
Definition IS_DOCKER (h : Host) : bool := fs_exists h "/.dockerenv".
Definition ENVIRONMENT (h : Host) : string :=
  orElse (process_env h "NODE_ENV") "development".
Definition ANNOUNCED_IP (h : Host) : string :=
  orElse (process_env h "SFU_ANNOUNCED_IP") EmptyString.

(** ** [findValidAddress] *)

(** The predicate handed to [find]. *)
Definition isUsable (addr : AddressRecord) : bool :=
  (family addr =? "IPv4")
  && negb (internal addr)
  && negb (startsWith (address addr) "169.254.").

(** [addresses?.find(...)?.address] *)
Definition findValidAddress (addresses : option (list AddressRecord))
  : option string :=
  match addresses with
  | None => None
  | Some l =>
      match find isUsable l with
      | None => None
      | Some addr => Some (address addr)
      end
  end.

(** ** [scanAllInterfaces] *)

(** [excludes.some((ex) => name.toLowerCase().includes(ex.toLowerCase()))] *)
Definition isExcluded (excludes : list string) (name : string) : bool :=
  existsb (fun ex => includes (toLowerCase name) (toLowerCase ex)) excludes.

Fixpoint scanAllInterfaces (ifaces : Ifaces) (excludes : list string)
  : option string :=
  match ifaces with
  | [] => None
  | (name, addresses) :: rest =>
      if isExcluded excludes name then scanAllInterfaces rest excludes
      else
        let addr := findValidAddress addresses in
        if truthy addr then addr else scanAllInterfaces rest excludes
  end.

(** ** [getLocalIPv4] *)

(** Each entry [{ name: n }] of the table is kept as [n]. *)
Definition PRIORITY_CONFIG (platform : Platform) : option (list string) :=
  match platform with
  | win32 => Some ["Ethernet"; "Wi-Fi"; "Local Area Connection"]
  | darwin => Some ["en0"; "en1"]
  | linux => Some ["eth0"; "wlan0"]
  | _ => None
  end.

Definition VIRTUAL_INTERFACES_all : list string :=
  ["docker"; "veth"; "tun"; "lo"].

Definition VIRTUAL_INTERFACES (platform : Platform) : option (list string) :=
  match platform with
  | win32 => Some ["Virtual"; "vEthernet"; "Teredo"; "Bluetooth"]
  | darwin => Some ["awdl"; "bridge"; "utun"]
  | linux => Some ["virbr"; "kube"; "cni"]
  | _ => None
  end.

(** [TABLE[platform] || []] *)
Definition orEmpty (row : option (list string)) : list string :=
  match row with
  | Some l => l
  | None => []
  end.

Definition platformPriorities (platform : Platform) : list string :=
  orEmpty (PRIORITY_CONFIG platform).

Definition virtualExcludes (platform : Platform) : list string :=
  VIRTUAL_INTERFACES_all ++ orEmpty (VIRTUAL_INTERFACES platform).

Definition isWin32 (platform : Platform) : bool :=
  match platform with
  | win32 => true
  | _ => false
  end.

Definition matchingIfaces (platform : Platform) (ifaces : Ifaces) (ifName : string)
  : list string :=
  if isWin32 platform
  then filter (fun k => includes k ifName) (keys ifaces)
  else [ifName].

(** The inner loop over [matchingIfaces]; [None] when it runs to its end. *)
Fixpoint scanMatching (ifaces : Ifaces) (names : list string) : option string :=
  match names with
  | [] => None
  | interfaceName :: rest =>
      let addr := findValidAddress (lookup ifaces interfaceName) in
      if truthy addr then addr else scanMatching ifaces rest
  end.

(** The outer loop over [platformPriorities]. *)
Fixpoint scanPriorities (platform : Platform) (ifaces : Ifaces)
  (priorities : list string) : option string :=
  match priorities with
  | [] => None
  | ifName :: rest =>
      match scanMatching ifaces (matchingIfaces platform ifaces ifName) with
      | Some addr => Some addr
      | None => scanPriorities platform ifaces rest
      end
  end.

Definition SENTINEL : string := "0.0.0.0".

Definition getLocalIPv4 (h : Host) : string :=
  let ifaces := os_networkInterfaces h in
  let platform := os_platform h in
  match scanPriorities platform ifaces (platformPriorities platform) with
  | Some addr => addr
  | None =>
      let fallbackAddress := scanAllInterfaces ifaces (virtualExcludes platform) in
      match fallbackAddress with
      | Some addr => if truthy fallbackAddress then addr else SENTINEL
      | None => SENTINEL
      end
  end.

(** ** [getIPv4] *)

(** The module-level constants are parameters here; [IPv4] below supplies
    them from the host. *)
Definition getIPv4 (announced_ip environment : string) (is_docker : bool)
  (h : Host) : string :=
  if truthy (Some announced_ip) then announced_ip
  else if environment =? "development"
       then (if is_docker then "127.0.0.1" else getLocalIPv4 h)
  else if environment =? "production"
       then announced_ip
  else getLocalIPv4 h.

Definition IPv4 (h : Host) : string :=
  getIPv4 (ANNOUNCED_IP h) (ENVIRONMENT h) (IS_DOCKER h) h.

(** ** [getFFmpegPath] *)

Definition paths (platform : Platform) : option (list string) :=
  match platform with
  | darwin => Some ["/usr/local/bin/ffmpeg"; "/opt/homebrew/bin/ffmpeg"]
  | linux => Some ["/usr/bin/ffmpeg"; "/usr/local/bin/ffmpeg"]
  | win32 => Some ["C:\ffmpeg\bin\ffmpeg.exe";
                   "C:\Program Files\ffmpeg\bin\ffmpeg.exe"]
  | _ => None
  end.

Definition platformPaths (platform : Platform) : list string :=
  match paths platform with
  | Some l => l
  | None => ["/usr/bin/ffmpeg"]
  end.

(** The [for] loop; [after] is the rest of the function body, reached when
    the loop runs to its end. *)
Fixpoint tryPaths (h : Host) (candidates : list string)
  (after : Completion (option string)) : Completion (option string) :=
  match candidates with
  | [] => after
  | path :: rest =>
      tryCatch (accessSync h path ;; Normal (Some path))
               (fun _ => tryPaths h rest after)
  end.

(** The result is a string, or [None] for [undefined]. *)
Definition getFFmpegPath (h : Host) (platform : Platform)
  : Completion (option string) :=
  tryPaths h (platformPaths platform) (Normal (nth_error (platformPaths platform) 0)).

Definition RTMP_FFMPEG_PATH (h : Host) : Completion (option string) :=
  if truthy (process_env h "RTMP_FFMPEG_PATH")
  then Normal (process_env h "RTMP_FFMPEG_PATH")
  else getFFmpegPath h (PLATFORM h).

(** ** Call traces

    The same loops, recording which calls are made: every
    [findValidAddress(ifaces[interfaceName])] of the priority pass, the call
    of [scanAllInterfaces], and every [fs.accessSync(path)].  The erasure
    lemmas below show that forgetting the trace gives back the functions
    above. *)

Inductive Event : Type :=
| Probe (ifName interfaceName : string)
| Exhaustive
| Access (path : string).

Definition probeOf (q : string * string) : Event := Probe (fst q) (snd q).

Fixpoint scanMatchingT (ifaces : Ifaces) (ifName : string) (names : list string)
  : list Event * option string :=
  match names with
  | [] => ([], None)
  | interfaceName :: rest =>
      let addr := findValidAddress (lookup ifaces interfaceName) in
      if truthy addr then ([Probe ifName interfaceName], addr)
      else
        let (tr, r) := scanMatchingT ifaces ifName rest in
        (Probe ifName interfaceName :: tr, r)
  end.

Fixpoint scanPrioritiesT (platform : Platform) (ifaces : Ifaces)
  (priorities : list string) : list Event * option string :=
  match priorities with
  | [] => ([], None)
  | ifName :: rest =>
      match scanMatchingT ifaces ifName (matchingIfaces platform ifaces ifName) with
      | (tr, Some addr) => (tr, Some addr)
      | (tr, None) =>
          let (tr', r) := scanPrioritiesT platform ifaces rest in
          (tr ++ tr', r)
      end
  end.

Definition getLocalIPv4T (h : Host) : list Event * string :=
  let ifaces := os_networkInterfaces h in
  let platform := os_platform h in
  match scanPrioritiesT platform ifaces (platformPriorities platform) with
  | (tr, Some addr) => (tr, addr)
  | (tr, None) =>
      let fallbackAddress := scanAllInterfaces ifaces (virtualExcludes platform) in
      (tr ++ [Exhaustive],
       match fallbackAddress with
       | Some addr => if truthy fallbackAddress then addr else SENTINEL
       | None => SENTINEL
       end)
  end.

Fixpoint tryPathsT (h : Host) (candidates : list string)
  (after : Completion (option string)) : list Event * Completion (option string) :=
  match candidates with
  | [] => ([], after)
  | path :: rest =>
      match accessSync h path with
      | Normal _ => ([Access path], Normal (Some path))
      | Throw _ =>
          let (tr, r) := tryPathsT h rest after in
          (Access path :: tr, r)
      end
  end.

Definition getFFmpegPathT (h : Host) (platform : Platform)
  : list Event * Completion (option string) :=
  tryPathsT h (platformPaths platform) (Normal (nth_error (platformPaths platform) 0)).

(** The pairs (priority name, interface name) the priority pass would probe
    if no probe succeeded, in the order of the two nested loops. *)
Definition allProbes (platform : Platform) (ifaces : Ifaces)
  (priorities : list string) : list (string * string) :=
  flat_map (fun ifName => map (pair ifName) (matchingIfaces platform ifaces ifName))
           priorities.

(** Does the probe of this pair make the priority pass return. *)
Definition probeSucceeds (ifaces : Ifaces) (q : string * string) : bool :=
  truthy (findValidAddress (lookup ifaces (snd q))).

(** The two nested loops of the priority pass seen as one loop over
    [allProbes]. *)
Fixpoint runProbes (ifaces : Ifaces) (probes : list (string * string))
  : list Event * option string :=
  match probes with
  | [] => ([], None)
  | q :: rest =>
      if probeSucceeds ifaces q
      then ([probeOf q], findValidAddress (lookup ifaces (snd q)))
      else
        let (tr, r) := runProbes ifaces rest in
        (probeOf q :: tr, r)
  end.

(** ** Dotted-quad syntax

    The shape the specification's invariant asks of the announced address:
    four decimal numbers between 0 and 255, of one to three digits each,
    separated by dots.  The source has no such check. *)

Definition isDigit (c : ascii) : bool :=
  let n := N_of_ascii c in (48 <=? n)%N && (n <=? 57)%N.

Fixpoint splitDots (s : string) : list string :=
  match s with
  | EmptyString => [EmptyString]
  | String c rest =>
      if Ascii.eqb c "."%char then EmptyString :: splitDots rest
      else
        match splitDots rest with
        | [] => [String c EmptyString]
        | x :: xs => String c x :: xs
        end
  end.

Fixpoint digitsValue (acc : N) (s : string) : N :=
  match s with
  | EmptyString => acc
  | String c rest => digitsValue (10 * acc + (N_of_ascii c - 48)) rest
  end.

Definition isOctet (s : string) : bool :=
  negb (s =? EmptyString)
  && (String.length s <=? 3)%nat
  && forallb isDigit (list_ascii_of_string s)
  && (digitsValue 0 s <=? 255)%N.

Definition isDottedQuad (s : string) : bool :=
  match splitDots s with
  | [a; b; c; d] => isOctet a && isOctet b && isOctet c && isOctet d
  | _ => false
  end.

(** ** Sample hosts used by the examples *)

Definition noFiles : string -> bool := fun _ => false.
Definition noEnv : string -> option string := fun _ => None.

Definition lanRecord : AddressRecord := mkAddress "IPv4" "192.168.1.5" false.

Definition linuxHost : Host :=
  mkHost linux [("eth0", Some [lanRecord])] noFiles noEnv.

Definition wslHost : Host :=
  mkHost win32
    [("vEthernet (WSL)", Some [mkAddress "IPv4" "172.20.0.1" false])]
    noFiles noEnv.

Definition blankAddressHost : Host :=
  mkHost linux
    [("eth0", Some [mkAddress "IPv4" EmptyString false]);
     ("eth1", Some [mkAddress "IPv4" "10.0.0.1" false])]
    noFiles noEnv.

Definition macHostWithBrew : Host :=
  mkHost darwin [] (fun p => p =? "/opt/homebrew/bin/ffmpeg") noEnv.

(** ** List-valued settings of the exported object

    [process.env] holds strings only; a setting read as
    [process.env.K ? parse(process.env.K) : fallback] takes the fallback when
    [K] is unset or empty.  Values are taken to be ASCII, as in the rest of
    the file, so [trim] strips the ASCII white space and line terminators. *)

(** [process.env[key]] when it is truthy. *)
Definition envTruthy (h : Host) (key : string) : option string :=
  match process_env h key with
  | Some s => if truthy (Some s) then Some s else None
  | None => None
  end.

(** [s.split(sep)] for a separator of one character, as at every call site. *)
Fixpoint split (sep : ascii) (s : string) : list string :=
  match s with
  | EmptyString => [EmptyString]
  | String c rest =>
      if Ascii.eqb c sep then EmptyString :: split sep rest
      else
        match split sep rest with
        | [] => [String c EmptyString]
        | piece :: pieces => String c piece :: pieces
        end
  end.

(** White space and line terminators, within ASCII. *)
Definition isWhiteSpace (c : ascii) : bool :=
  let n := N_of_ascii c in
  ((9 <=? n)%N && (n <=? 13)%N) || (n =? 32)%N.

Fixpoint trimStart (s : string) : string :=
  match s with
  | EmptyString => EmptyString
  | String c rest => if isWhiteSpace c then trimStart rest else s
  end.

Fixpoint trimEnd (s : string) : string :=
  match s with
  | EmptyString => EmptyString
  | String c rest =>
      match trimEnd rest with
      | EmptyString => if isWhiteSpace c then EmptyString else String c EmptyString
      | kept => String c kept
      end
  end.

(** [s.trim()] *)
Definition trim (s : string) : string := trimEnd (trimStart s).

Definition splitChar : ascii := ","%char.

(** [s.split(',').map((x) => x.trim()).filter((x) => x !== '')] *)
Definition parseList (s : string) : list string :=
  filter (fun x => negb (x =? EmptyString)) (map trim (split splitChar s)).

(** [security.middleware.IpWhitelist.allowedIPs] *)
Definition allowedIPs (h : Host) : list string :=
  match envTruthy h "IP_WHITELIST_ALLOWED" with
  | Some s => parseList s
  | None => ["127.0.0.1"; "::1"]
  end.

(** [security.host.presenters.list] *)
Definition presenters_list (h : Host) : list string :=
  match envTruthy h "PRESENTERS" with
  | Some s => parseList s
  | None => ["Miroslav Pejic"; "miroslav.pejic.85@gmail.com"]
  end.

(** [integrations.sentry.logLevels]: trimmed, not filtered. *)
Definition logLevels (h : Host) : list string :=
  match envTruthy h "SENTRY_LOG_LEVELS" with
  | Some s => map trim (split splitChar s)
  | None => ["error"]
  end.

(** An entry of [security.host.users]; [allowed_rooms] is [None] where the
    object has no such key. *)
Record HostUser : Type := mkUser {
  username : string;
  password : string;
  displayname : string;
  allowed_rooms : option (list string)
}.

(** The callback mapped over [HOST_USERS.split('|')]. *)
Definition parseUser (userStr : string) : HostUser :=
  let fields := split ":"%char userStr in
  let allowedRoomsStr := nth_error fields 3 in
  {| username := orElse (nth_error fields 0) EmptyString;
     password := orElse (nth_error fields 1) EmptyString;
     displayname := orElse (nth_error fields 2) EmptyString;
     allowed_rooms :=
       Some (if truthy allowedRoomsStr
             then parseList (orElse allowedRoomsStr EmptyString)
             else ["*"]) |}.

(** [security.host.users] *)
Definition users (h : Host) : list HostUser :=
  match envTruthy h "HOST_USERS" with
  | Some s => map parseUser (split "|"%char s)
  | None =>
      [ mkUser "username" "password" "username displayname" (Some ["*"]);
        mkUser "username2" "password2" "username2 displayname"
          (Some ["room1"; "room2"]);
        mkUser "username3" "password3" "username3 displayname" None ]
  end.

(** The format the file documents for [HOST_USERS]:
    [username:password:displayname:room1,room2|username2:...]. *)
Definition formatUser (u : HostUser) : string :=
  (username u ++ ":" ++ password u ++ ":" ++ displayname u ++ ":"
   ++ String.concat "," (match allowed_rooms u with Some l => l | None => [] end))%string.

Definition formatUsers (us : list HostUser) : string :=
  String.concat "|" (map formatUser us).

(** The characters of a string. *)
Definition hasChar (c : ascii) (s : string) : bool :=
  existsb (Ascii.eqb c) (list_ascii_of_string s).

(** How many times a character occurs. *)
Definition countChar (c : ascii) (s : string) : nat :=
  List.length (filter (Ascii.eqb c) (list_ascii_of_string s)).

Definition firstChar (s : string) : option ascii :=
  match s with
  | EmptyString => None
  | String c _ => Some c
  end.

Fixpoint lastChar (s : string) : option ascii :=
  match s with
  | EmptyString => None
  | String c EmptyString => Some c
  | String _ rest => lastChar rest
  end.

(** An item as [parseList] keeps it: not empty, no white space at either
    end. *)
Definition isTrimmed (s : string) : bool :=
  match firstChar s, lastChar s with
  | Some a, Some b => negb (isWhiteSpace a) && negb (isWhiteSpace b)
  | _, _ => false
  end.

Definition allWhiteSpace (s : string) : bool :=
  forallb isWhiteSpace (list_ascii_of_string s).

(** Only commas and white space. *)
Definition isBlankList (s : string) : bool :=
  forallb (fun c => isWhiteSpace c || Ascii.eqb c splitChar)
          (list_ascii_of_string s).

(** A user as the documented format can carry it: no field holds [':'] or
    ['|'], and the rooms are a non-empty list of items without white space
    at either end and without [','], [':'] or ['|']. *)
Definition cleanField (s : string) : bool :=
  negb (hasChar ":" s) && negb (hasChar "|" s).

Definition cleanRoom (s : string) : bool :=
  isTrimmed s && negb (hasChar splitChar s) && cleanField s.

Definition wellFormedUser (u : HostUser) : bool :=
  cleanField (username u) && cleanField (password u)
  && cleanField (displayname u)
  && match allowed_rooms u with
     | Some (r :: rs) => forallb cleanRoom (r :: rs)
     | _ => false
     end.

Definition envWith (key value : string) : string -> option string :=
  fun k => if k =? key then Some value else None.

(** ** Integer settings: [parseInt(process.env.K) || fallback]

    [parseInt] with its radix left out, following the steps of the language
    specification: white space is dropped from the front, a sign is read, a
    prefix [0x] or [0X] selects radix 16, and the longest run of digits is
    read; [None] is [NaN].  The integer returned is the mathematical value
    of the digits, which is the Number [parseInt] gives as long as it does
    not exceed 2^53 in magnitude. *)

Definition digitValue (radix : N) (c : ascii) : option N :=
  let n := N_of_ascii c in
  let v :=
    if (48 <=? n)%N && (n <=? 57)%N then Some (n - 48)%N
    else if (97 <=? n)%N && (n <=? 122)%N then Some (n - 87)%N
    else if (65 <=? n)%N && (n <=? 90)%N then Some (n - 55)%N
    else None in
  match v with
  | Some d => if (d <? radix)%N then Some d else None
  | None => None
  end.

(** The value of the longest prefix of digits; [acc] is the value read so
    far, [None] before the first digit. *)
Fixpoint parseDigits (radix : N) (s : string) (acc : option N) : option N :=
  match s with
  | EmptyString => acc
  | String c rest =>
      match digitValue radix c with
      | Some d =>
          parseDigits radix rest
            (Some (radix * match acc with Some a => a | None => 0 end + d)%N)
      | None => acc
      end
  end.

(** [parseInt(v)]; an unset variable is [undefined], read as the string
    "undefined". *)
Definition parseInt (v : option string) : option Z :=
  let inputString := match v with Some s => s | None => "undefined" end in
  let s0 := trimStart inputString in
  let negative :=
    match s0 with
    | String c _ => Ascii.eqb c "-"
    | EmptyString => false
    end in
  let s1 :=
    match s0 with
    | String c rest => if Ascii.eqb c "-" || Ascii.eqb c "+" then rest else s0
    | EmptyString => s0
    end in
  let hex :=
    match s1 with
    | String c (String x _) => Ascii.eqb c "0" && (Ascii.eqb x "x" || Ascii.eqb x "X")
    | _ => false
    end in
  let radix := if hex then 16%N else 10%N in
  let s2 :=
    match s1 with
    | String _ (String _ rest) => if hex then rest else s1
    | _ => s1
    end in
  match parseDigits radix s2 None with
  | None => None
  | Some n => Some (if negative then - Z.of_N n else Z.of_N n)%Z
  end.

(** [parseInt(v) || fallback]: [NaN] and zero are falsy. *)
Definition parseIntOr (v : option string) (fallback : Z) : Z :=
  match parseInt v with
  | Some z => if (z =? 0)%Z then fallback else z
  | None => fallback
  end.

Definition RTC_MIN_PORT (h : Host) : Z :=
  parseIntOr (process_env h "SFU_MIN_PORT") 40000.
Definition RTC_MAX_PORT (h : Host) : Z :=
  parseIntOr (process_env h "SFU_MAX_PORT") 40100.

(** [media.rtmp.maxStreams] and [media.rtmp.expirationHours] *)
Definition rtmp_maxStreams (h : Host) : Z :=
  parseIntOr (process_env h "RTMP_MAX_STREAMS") 1.
Definition rtmp_expirationHours (h : Host) : Z :=
  parseIntOr (process_env h "RTMP_EXPIRATION_HOURS") 4.

(** The decimal numeral of a natural number. *)
Definition decimal (n : N) : string := NilEmpty.string_of_uint (N.to_uint n).

(** The largest magnitude up to which every integer is a Number. *)
Definition MAX_EXACT : N := 9007199254740992.

Definition allDigits (s : string) : bool :=
  forallb isDigit (list_ascii_of_string s).

(** ** The ASCII domain

    [toLowerCase], [trim] and the white-space stripping of [parseInt] above
    are the ASCII parts of the JavaScript operations, which also act on
    characters outside ASCII (a no-break space is white space, the Kelvin
    sign lower-cases to [k]).  On a string of ASCII characters the two
    agree; a property that needs the agreement is stated for such
    strings. *)

Definition isAscii (s : string) : bool :=
  forallb (fun c => (N_of_ascii c <? 128)%N) (list_ascii_of_string s).

(** ** Address resolution with its exceptions

    [getLocalIPv4] and [getIPv4] once more, on the host as the process meets
    it: the call [os.networkInterfaces()] is not wrapped in a handler and
    may throw, and a record may come without its [address] field, in which
    case [addr.address.startsWith] throws a TypeError.  The predicate reads
    [address] only after [family] and [internal] have passed, and [find]
    stops at the first record accepted. *)

Record RawRecord : Type := mkRawRecord {
  raw_family : string;
  raw_address : option string;
  raw_internal : bool
}.

Definition RawIfaces : Type := list (string * option (list RawRecord)).

Record RawHost : Type := mkRawHost {
  raw_platform : Platform;
  raw_networkInterfaces : Completion RawIfaces;
  raw_fs_exists : string -> bool;
  raw_env : string -> option string
}.

Notation "'do' x <- c ; k" := (bind c (fun x => k))
  (at level 10, x name, c at level 100, k at level 200).

Definition isUsableC (addr : RawRecord) : Completion bool :=
  if (raw_family addr =? "IPv4") && negb (raw_internal addr)
  then
    match raw_address addr with
    | Some a => Normal (negb (startsWith a "169.254."))
    | None => Throw "TypeError"
    end
  else Normal false.

(** [addresses.find(...)] *)
Fixpoint findC (addresses : list RawRecord) : Completion (option RawRecord) :=
  match addresses with
  | [] => Normal None
  | addr :: rest =>
      do ok <- isUsableC addr ;
      if ok then Normal (Some addr) else findC rest
  end.

Definition findValidAddressC (addresses : option (list RawRecord))
  : Completion (option string) :=
  match addresses with
  | None => Normal None
  | Some l =>
      do found <- findC l ;
      Normal match found with
             | Some addr => raw_address addr
             | None => None
             end
  end.

Fixpoint lookupC (ifaces : RawIfaces) (k : string) : option (list RawRecord) :=
  match ifaces with
  | [] => None
  | (name, addresses) :: rest =>
      if name =? k then addresses else lookupC rest k
  end.

Fixpoint scanAllInterfacesC (ifaces : RawIfaces) (excludes : list string)
  : Completion (option string) :=
  match ifaces with
  | [] => Normal None
  | (name, addresses) :: rest =>
      if isExcluded excludes name then scanAllInterfacesC rest excludes
      else
        do addr <- findValidAddressC addresses ;
        if truthy addr then Normal addr else scanAllInterfacesC rest excludes
  end.

Definition matchingIfacesC (platform : Platform) (ifaces : RawIfaces)
  (ifName : string) : list string :=
  if isWin32 platform
  then filter (fun k => includes k ifName) (map fst ifaces)
  else [ifName].

Fixpoint scanMatchingC (ifaces : RawIfaces) (names : list string)
  : Completion (option string) :=
  match names with
  | [] => Normal None
  | interfaceName :: rest =>
      do addr <- findValidAddressC (lookupC ifaces interfaceName) ;
      if truthy addr then Normal addr else scanMatchingC ifaces rest
  end.

Fixpoint scanPrioritiesC (platform : Platform) (ifaces : RawIfaces)
  (priorities : list string) : Completion (option string) :=
  match priorities with
  | [] => Normal None
  | ifName :: rest =>
      do r <- scanMatchingC ifaces (matchingIfacesC platform ifaces ifName) ;
      match r with
      | Some addr => Normal (Some addr)
      | None => scanPrioritiesC platform ifaces rest
      end
  end.

Definition getLocalIPv4C (raw : RawHost) : Completion string :=
  do ifaces <- raw_networkInterfaces raw ;
  let platform := raw_platform raw in
  do r <- scanPrioritiesC platform ifaces (platformPriorities platform) ;
  match r with
  | Some addr => Normal addr
  | None =>
      do fallbackAddress <- scanAllInterfacesC ifaces (virtualExcludes platform) ;
      Normal match fallbackAddress with
             | Some addr => if truthy fallbackAddress then addr else SENTINEL
             | None => SENTINEL
             end
  end.

Definition getIPv4C (announced_ip environment : string) (is_docker : bool)
  (raw : RawHost) : Completion string :=
  if truthy (Some announced_ip) then Normal announced_ip
  else if environment =? "development"
       then (if is_docker then Normal "127.0.0.1" else getLocalIPv4C raw)
  else if environment =? "production"
       then Normal announced_ip
  else getLocalIPv4C raw.

(** The table of a host whose read returned, as the functions above see
    it; a record without [address] gets the empty string, which is never
    read when the record is not IPv4 or is internal. *)
Definition cookRecord (r : RawRecord) : AddressRecord :=
  mkAddress (raw_family r)
            match raw_address r with Some a => a | None => EmptyString end
            (raw_internal r).

Definition cookList (v : option (list RawRecord)) : option (list AddressRecord) :=
  match v with
  | Some l => Some (map cookRecord l)
  | None => None
  end.

Definition cookTable (t : RawIfaces) : Ifaces :=
  map (fun e => (fst e, cookList (snd e))) t.

Definition hostOf (raw : RawHost) (t : RawIfaces) : Host :=
  mkHost (raw_platform raw) (cookTable t) (raw_fs_exists raw) (raw_env raw).

(** The record has the field the predicate will read. *)
Definition hasAddress (r : RawRecord) : bool :=
  negb ((raw_family r =? "IPv4") && negb (raw_internal r))
  || match raw_address r with Some _ => true | None => false end.

Definition addressesPresent (t : RawIfaces) : bool :=
  forallb (fun e => match snd e with
                    | Some l => forallb hasAddress l
                    | None => true
                    end) t.

(** * Properties *)

(** ** Scenarios of the specification, run on the model *)

Example scenario_A :
  getIPv4 EmptyString "development" false linuxHost = "192.168.1.5".
Proof. reflexivity. Qed.

Example scenario_B (h : Host) :
  getIPv4 EmptyString "development" true h = "127.0.0.1".
Proof. reflexivity. Qed.

Example scenario_D :
  getFFmpegPath (mkHost darwin [] noFiles noEnv) darwin
  = Normal (Some "/usr/local/bin/ffmpeg").
Proof. reflexivity. Qed.

Example scenario_brew :
  getFFmpegPathT macHostWithBrew darwin
  = ([Access "/usr/local/bin/ffmpeg"; Access "/opt/homebrew/bin/ffmpeg"],
     Normal (Some "/opt/homebrew/bin/ffmpeg")).
Proof. reflexivity. Qed.

Example scenario_wsl : getLocalIPv4T wslHost = ([Probe "Ethernet" "vEthernet (WSL)"], "172.20.0.1").
Proof. reflexivity. Qed.

Example scenario_blank :
  getLocalIPv4T blankAddressHost
  = ([Probe "eth0" "eth0"; Probe "wlan0" "wlan0"; Exhaustive], "10.0.0.1").
Proof. reflexivity. Qed.

Example dotted_quad_samples :
  isDottedQuad "192.168.1.5" = true /\ isDottedQuad SENTINEL = true
  /\ isDottedQuad "127.0.0.1" = true /\ isDottedQuad EmptyString = false
  /\ isDottedQuad "fe80::1" = false /\ isDottedQuad "1.2.3" = false
  /\ isDottedQuad "1.2.3.256" = false /\ isDottedQuad "1..2.3" = false.
Proof. repeat split; reflexivity. Qed.

(** ** Strings and truthiness *)

Lemma startsWith_spec (s p : string) :
  startsWith s p = true <-> exists rest, s = (p ++ rest)%string.
Proof.
  unfold startsWith. revert s.
  induction p as [|c p IH]; intros s.
  - split; [intros _; exists s; reflexivity | intros _; destruct s; reflexivity].
  - destruct s as [|d s]; simpl.
    + split; [discriminate | intros [rest Hr]; discriminate].
    + destruct (ascii_dec c d) as [->|Hcd].
      * rewrite IH. split; intros [rest Hr]; exists rest.
        -- now rewrite Hr.
        -- now injection Hr.
      * split; [discriminate | intros [rest Hr]; injection Hr; congruence].
Qed.

Lemma truthy_Some (s : string) : truthy (Some s) = true <-> s <> EmptyString.
Proof.
  simpl. rewrite negb_true_iff. split.
  - intros H ->. discriminate.
  - intros H. destruct s; [congruence | reflexivity].
Qed.

Lemma truthy_inv (v : option string) :
  truthy v = true -> exists s, v = Some s /\ s <> EmptyString.
Proof.
  destruct v as [s|]; [|discriminate].
  intros H. exists s. split; [reflexivity | now apply truthy_Some].
Qed.

Lemma truthy_empty : truthy (Some EmptyString) = false.
Proof. reflexivity. Qed.

(** ** The address validator *)

Lemma isUsable_true (r : AddressRecord) :
  isUsable r = true <->
  family r = "IPv4" /\ internal r = false
  /\ startsWith (address r) "169.254." = false.
Proof.
  unfold isUsable.
  rewrite !andb_true_iff, !negb_true_iff, String.eqb_eq. tauto.
Qed.

(** C5. The predicate of [findValidAddress] accepts exactly the records whose
    family is IPv4, whose internal flag is false and whose address does not
    begin with "169.254."; so it rejects every IPv6 record, every internal
    record and every record whose address has that prefix. *)
Theorem validator_characterisation :
  (forall r : AddressRecord,
      isUsable r = true <->
      family r = "IPv4" /\ internal r = false
      /\ ~ (exists rest, address r = ("169.254." ++ rest)%string))
  /\ (forall a i, isUsable (mkAddress "IPv6" a i) = false)
  /\ (forall f a, isUsable (mkAddress f a true) = false)
  /\ (forall f rest i, isUsable (mkAddress f ("169.254." ++ rest)%string i) = false).
Proof.
  split; [|split; [|split]].
  - intros r. rewrite isUsable_true, <- startsWith_spec.
    destruct (startsWith (address r) "169.254."); intuition congruence.
  - reflexivity.
  - intros f a. unfold isUsable. simpl.
    now rewrite andb_false_r.
  - intros f rest i. unfold isUsable.
    replace (startsWith (address (mkAddress f ("169.254." ++ rest)%string i)) "169.254.")
      with true.
    + now rewrite andb_false_r.
    + symmetry. apply startsWith_spec. now exists rest.
Qed.

Lemma validator_characterisation_witness :
  isUsable lanRecord = true /\ isUsable (mkAddress "IPv4" "169.254.7.7" false) = false.
Proof.
  split.
  - apply (proj1 validator_characterisation lanRecord).
    split; [reflexivity | split; [reflexivity |]].
    intros [rest Hr]. discriminate Hr.
  - exact (proj2 (proj2 (proj2 validator_characterisation)) "IPv4" "7.7" false).
Defined.

(** ** [getIPv4] *)

(** C1. A non-empty override is returned as it is, whatever the environment
    mode, the container flag and the host (platform, interface table). *)
Theorem getIPv4_override (announced_ip environment : string) (is_docker : bool)
  (h : Host) :
  announced_ip <> EmptyString ->
  getIPv4 announced_ip environment is_docker h = announced_ip.
Proof.
  intros Hne. unfold getIPv4.
  now rewrite (proj2 (truthy_Some announced_ip) Hne).
Qed.

Lemma getIPv4_override_witness :
  "203.0.113.9" <> EmptyString
  /\ getIPv4 "203.0.113.9" "production" true blankAddressHost = "203.0.113.9".
Proof. split; [discriminate | apply getIPv4_override; discriminate]. Defined.

(** The same at module level: when [SFU_ANNOUNCED_IP] is set to a non-empty
    string, [IPv4] is that string. *)
Lemma IPv4_override (h : Host) (ip : string) :
  process_env h "SFU_ANNOUNCED_IP" = Some ip -> ip <> EmptyString -> IPv4 h = ip.
Proof.
  intros He Hne. unfold IPv4, ANNOUNCED_IP. rewrite He.
  unfold orElse, getIPv4. now rewrite !(proj2 (truthy_Some ip) Hne).
Qed.

(** C2. With an empty override and the mode "production", the result is the
    override itself, the empty string, for every container flag and every
    host: the interface table is not consulted and the sentinel is not
    returned. *)
Theorem getIPv4_production_empty (is_docker : bool) (h : Host) :
  getIPv4 EmptyString "production" is_docker h = EmptyString
  /\ getIPv4 EmptyString "production" is_docker h <> SENTINEL.
Proof. split; [reflexivity | discriminate]. Qed.

(** ** Where a returned address comes from *)

Lemma findValidAddress_Some (v : option (list AddressRecord)) (a : string) :
  findValidAddress v = Some a ->
  exists l r, v = Some l /\ In r l /\ address r = a /\ isUsable r = true.
Proof.
  destruct v as [l|]; simpl; [|discriminate].
  destruct (find isUsable l) as [r|] eqn:Hf; [|discriminate].
  intros [= <-]. apply find_some in Hf. exists l, r. tauto.
Qed.

Lemma lookup_Some_In (ifaces : Ifaces) (k : string) (l : list AddressRecord) :
  lookup ifaces k = Some l -> In (k, Some l) ifaces.
Proof.
  induction ifaces as [|[name v] rest IH]; simpl; [discriminate|].
  destruct (name =? k) eqn:E.
  - apply String.eqb_eq in E. intros ->. left. now subst.
  - intros H. right. now apply IH.
Qed.

Lemma lookup_in_table (ifaces : Ifaces) (k : string) :
  lookup ifaces k = None \/ In (k, lookup ifaces k) ifaces.
Proof.
  induction ifaces as [|[name v] rest IH]; simpl; [now left|].
  destruct (name =? k) eqn:E.
  - apply String.eqb_eq in E. subst. right. now left.
  - destruct IH as [IH|IH]; [now left | right; now right].
Qed.

Lemma isExcluded_false (excludes : list string) (name : string) :
  isExcluded excludes name = false <->
  forall ex, In ex excludes -> includes (toLowerCase name) (toLowerCase ex) = false.
Proof.
  unfold isExcluded. induction excludes as [|e es IH]; simpl.
  - split; [intros _ ex [] | reflexivity].
  - rewrite orb_false_iff, IH. split.
    + intros [H1 H2] ex [<-|Hin]; auto.
    + intros H. split; [apply H; now left | intros ex Hin; apply H; now right].
Qed.

Lemma scanMatching_Some (ifaces : Ifaces) (names : list string) (a : string) :
  scanMatching ifaces names = Some a ->
  exists m, In m names /\ findValidAddress (lookup ifaces m) = Some a
            /\ a <> EmptyString.
Proof.
  induction names as [|m rest IH]; simpl; [discriminate|].
  destruct (truthy (findValidAddress (lookup ifaces m))) eqn:T.
  - intros Hm. exists m. rewrite Hm in T.
    split; [now left | split; [assumption | now apply truthy_Some]].
  - intros H. destruct (IH H) as (m' & Hin & Hrest). exists m'. split; [now right | assumption].
Qed.

Lemma scanPriorities_Some (platform : Platform) (ifaces : Ifaces)
  (priorities : list string) (a : string) :
  scanPriorities platform ifaces priorities = Some a ->
  exists n m, In n priorities /\ In m (matchingIfaces platform ifaces n)
              /\ findValidAddress (lookup ifaces m) = Some a
              /\ a <> EmptyString.
Proof.
  induction priorities as [|n rest IH]; simpl; [discriminate|].
  destruct (scanMatching ifaces (matchingIfaces platform ifaces n)) as [b|] eqn:Hm.
  - intros [= <-]. apply scanMatching_Some in Hm as (m & Hin & Hf & Hne).
    exists n, m. repeat split; auto.
  - intros H. destruct (IH H) as (n' & m & Hin & Hrest).
    exists n', m. split; [now right | assumption].
Qed.

(** A result of the exhaustive pass is the address found in the first
    interface that is neither excluded nor without a truthy address. *)
Lemma scanAllInterfaces_Some (ifaces : Ifaces) (excludes : list string) (a : string) :
  scanAllInterfaces ifaces excludes = Some a ->
  exists pre name addresses post,
    ifaces = pre ++ (name, addresses) :: post
    /\ isExcluded excludes name = false
    /\ findValidAddress addresses = Some a
    /\ a <> EmptyString
    /\ (forall q, In q pre ->
          isExcluded excludes (fst q) = true
          \/ truthy (findValidAddress (snd q)) = false).
Proof.
  induction ifaces as [|[name v] rest IH]; simpl; [discriminate|].
  destruct (isExcluded excludes name) eqn:Ex.
  - intros H. destruct (IH H) as (pre & n & w & post & -> & Hrest).
    exists ((name, v) :: pre), n, w, post.
    split; [reflexivity|].
    destruct Hrest as (H1 & H2 & H3 & H4). repeat split; auto.
    intros q [<-|Hq]; [now left | now apply H4].
  - destruct (truthy (findValidAddress v)) eqn:T.
    + intros Hv. exists [], name, v, rest. rewrite Hv in T.
      apply truthy_Some in T.
      split; [reflexivity|]. split; [assumption|]. split; [assumption|].
      split; [assumption|]. intros q [].
    + intros H. destruct (IH H) as (pre & n & w & post & -> & Hrest).
      exists ((name, v) :: pre), n, w, post.
      split; [reflexivity|].
      destruct Hrest as (H1 & H2 & H3 & H4). repeat split; auto.
      intros q [<-|Hq]; [now right | now apply H4].
Qed.

Lemma getLocalIPv4_cases (h : Host) :
  let ifaces := os_networkInterfaces h in
  let platform := os_platform h in
  scanPriorities platform ifaces (platformPriorities platform) = Some (getLocalIPv4 h)
  \/ (scanPriorities platform ifaces (platformPriorities platform) = None
      /\ scanAllInterfaces ifaces (virtualExcludes platform) = Some (getLocalIPv4 h))
  \/ (scanPriorities platform ifaces (platformPriorities platform) = None
      /\ scanAllInterfaces ifaces (virtualExcludes platform) = None
      /\ getLocalIPv4 h = SENTINEL).
Proof.
  cbv zeta. unfold getLocalIPv4.
  destruct (scanPriorities _ _ _) as [a|]; [now left | right].
  destruct (scanAllInterfaces _ _) as [a|] eqn:Hs; [left | right; auto].
  apply scanAllInterfaces_Some in Hs as (_ & _ & _ & _ & _ & _ & _ & Hne & _).
  now rewrite (proj2 (truthy_Some a) Hne).
Qed.

(** C4. An address returned by the exhaustive pass was found in an interface
    whose lower-cased name contains the lower-cased form of no fragment of
    the global list [docker, veth, tun, lo] and of no fragment of the
    platform's own list; every interface before it in the table was excluded
    or gave no address. *)
Theorem exhaustive_pass_skips_excluded (platform : Platform) (ifaces : Ifaces)
  (a : string) :
  scanAllInterfaces ifaces (virtualExcludes platform) = Some a ->
  exists pre name addresses post,
    ifaces = pre ++ (name, addresses) :: post
    /\ findValidAddress addresses = Some a
    /\ (forall ex,
          In ex VIRTUAL_INTERFACES_all \/ In ex (orEmpty (VIRTUAL_INTERFACES platform)) ->
          includes (toLowerCase name) (toLowerCase ex) = false)
    /\ (forall q, In q pre ->
          isExcluded (virtualExcludes platform) (fst q) = true
          \/ truthy (findValidAddress (snd q)) = false).
Proof.
  intros H.
  apply scanAllInterfaces_Some in H
    as (pre & name & v & post & Heq & Hex & Hf & _ & Hpre).
  exists pre, name, v, post. repeat split; auto.
  intros ex Hin. apply (proj1 (isExcluded_false _ _) Hex).
  unfold virtualExcludes. apply in_or_app. exact Hin.
Qed.

Lemma exhaustive_pass_skips_excluded_witness :
  scanAllInterfaces [("docker0", Some [lanRecord]); ("enp3s0", Some [lanRecord])]
    (virtualExcludes linux) = Some "192.168.1.5"
  /\ exists pre name addresses post,
    [("docker0", Some [lanRecord]); ("enp3s0", Some [lanRecord])]
    = pre ++ (name, addresses) :: post
    /\ findValidAddress addresses = Some "192.168.1.5"
    /\ (forall ex,
          In ex VIRTUAL_INTERFACES_all \/ In ex (orEmpty (VIRTUAL_INTERFACES linux)) ->
          includes (toLowerCase name) (toLowerCase ex) = false)
    /\ (forall q, In q pre ->
          isExcluded (virtualExcludes linux) (fst q) = true
          \/ truthy (findValidAddress (snd q)) = false).
Proof.
  split; [reflexivity|].
  apply (exhaustive_pass_skips_excluded linux
           [("docker0", Some [lanRecord]); ("enp3s0", Some [lanRecord])]
           "192.168.1.5").
  reflexivity.
Defined.

(** Every result of [getLocalIPv4] is the sentinel or was read from a record
    of the table that the validator accepts. *)
Lemma getLocalIPv4_from_table (h : Host) :
  getLocalIPv4 h = SENTINEL
  \/ exists name addresses r,
       In (name, Some addresses) (os_networkInterfaces h)
       /\ In r addresses
       /\ address r = getLocalIPv4 h
       /\ isUsable r = true.
Proof.
  destruct (getLocalIPv4_cases h) as [Hp | [[_ Hs] | (_ & _ & Hz)]];
    [right | right | now left].
  - apply scanPriorities_Some in Hp as (n & m & _ & _ & Hf & _).
    pose proof Hf as Hf'.
    apply findValidAddress_Some in Hf as (l & r & Hl & Hr & Ha & Hu).
    exists m, l, r. split; [now apply lookup_Some_In | tauto].
  - apply scanAllInterfaces_Some in Hs as (pre & n & v & post & Heq & _ & Hf & _).
    apply findValidAddress_Some in Hf as (l & r & -> & Hr & Ha & Hu).
    exists n, l, r. split; [|tauto].
    rewrite Heq. apply in_or_app. right. now left.
Qed.

(** When the priority pass finds nothing, a result other than the sentinel
    is the one of the exhaustive pass. *)
Lemma getLocalIPv4_fallback (h : Host) :
  scanPriorities (os_platform h) (os_networkInterfaces h)
    (platformPriorities (os_platform h)) = None ->
  getLocalIPv4 h <> SENTINEL ->
  scanAllInterfaces (os_networkInterfaces h) (virtualExcludes (os_platform h))
  = Some (getLocalIPv4 h).
Proof.
  intros Hp Hne.
  destruct (getLocalIPv4_cases h) as [Hq | [[_ Hs] | (_ & _ & Hz)]];
    [congruence | assumption | contradiction].
Qed.

(** C10. A result of [getLocalIPv4] other than the sentinel is the address
    field of a record of the interface table that is IPv4, not internal and
    not prefixed "169.254.". *)
Theorem getLocalIPv4_sound (h : Host) :
  getLocalIPv4 h <> SENTINEL ->
  exists name addresses r,
    In (name, Some addresses) (os_networkInterfaces h)
    /\ In r addresses
    /\ address r = getLocalIPv4 h
    /\ family r = "IPv4"
    /\ internal r = false
    /\ startsWith (address r) "169.254." = false.
Proof.
  intros Hne.
  destruct (getLocalIPv4_from_table h)
    as [Hs | (name & l & r & Hin & Hr & Ha & Hu)]; [contradiction|].
  apply isUsable_true in Hu as (Hfam & Hint & Hpre).
  exists name, l, r. repeat split; auto.
Qed.

Lemma getLocalIPv4_sound_witness :
  getLocalIPv4 linuxHost <> SENTINEL
  /\ exists name addresses r,
    In (name, Some addresses) (os_networkInterfaces linuxHost)
    /\ In r addresses
    /\ address r = getLocalIPv4 linuxHost
    /\ family r = "IPv4"
    /\ internal r = false
    /\ startsWith (address r) "169.254." = false.
Proof.
  split; [discriminate | apply (getLocalIPv4_sound linuxHost); discriminate].
Defined.

(** ** Traces: erasure and shape *)

Lemma first_hit {A : Type} (f : A -> bool) (l : list A) :
  (exists x, In x l /\ f x = true) ->
  exists pre x post,
    l = pre ++ x :: post /\ (forall y, In y pre -> f y = false) /\ f x = true.
Proof.
  induction l as [|a l IH]; intros (x & Hin & Hx); [destruct Hin|].
  destruct (f a) eqn:Fa.
  - exists [], a, l. split; [reflexivity | split; [intros y [] | assumption]].
  - destruct IH as (pre & x' & post & -> & Hpre & Hx').
    + destruct Hin as [->|Hin]; [congruence | now exists x].
    + exists (a :: pre), x', post.
      split; [reflexivity | split; [|assumption]].
      intros y [<-|Hy]; auto.
Qed.

Lemma scanMatchingT_erase (ifaces : Ifaces) (ifName : string) (names : list string) :
  snd (scanMatchingT ifaces ifName names) = scanMatching ifaces names.
Proof.
  induction names as [|m rest IH]; simpl; [reflexivity|].
  destruct (truthy (findValidAddress (lookup ifaces m))); [reflexivity|].
  destruct (scanMatchingT ifaces ifName rest). exact IH.
Qed.

Lemma scanPrioritiesT_erase (platform : Platform) (ifaces : Ifaces)
  (priorities : list string) :
  snd (scanPrioritiesT platform ifaces priorities)
  = scanPriorities platform ifaces priorities.
Proof.
  induction priorities as [|n rest IH]; simpl; [reflexivity|].
  rewrite <- (scanMatchingT_erase ifaces n).
  destruct (scanMatchingT ifaces n (matchingIfaces platform ifaces n)) as [tr [a|]];
    simpl; [reflexivity|].
  destruct (scanPrioritiesT platform ifaces rest). exact IH.
Qed.

Lemma getLocalIPv4T_erase (h : Host) : snd (getLocalIPv4T h) = getLocalIPv4 h.
Proof.
  unfold getLocalIPv4T, getLocalIPv4.
  rewrite <- scanPrioritiesT_erase.
  now destruct (scanPrioritiesT _ _ _) as [tr [a|]].
Qed.

Lemma tryPathsT_erase (h : Host) (candidates : list string)
  (after : Completion (option string)) :
  snd (tryPathsT h candidates after) = tryPaths h candidates after.
Proof.
  induction candidates as [|p rest IH]; simpl; [reflexivity|].
  unfold accessSync. destruct (fs_exists h p); simpl; [reflexivity|].
  destruct (tryPathsT h rest after). exact IH.
Qed.

Lemma getFFmpegPathT_erase (h : Host) (platform : Platform) :
  snd (getFFmpegPathT h platform) = getFFmpegPath h platform.
Proof. apply tryPathsT_erase. Qed.

Lemma runProbes_app (ifaces : Ifaces) (l1 l2 : list (string * string)) :
  runProbes ifaces (l1 ++ l2)
  = match runProbes ifaces l1 with
    | (tr, Some a) => (tr, Some a)
    | (tr, None) => let (tr', r) := runProbes ifaces l2 in (tr ++ tr', r)
    end.
Proof.
  induction l1 as [|q l1 IH]; simpl.
  - now destruct (runProbes ifaces l2).
  - destruct (probeSucceeds ifaces q) eqn:Hq.
    + unfold probeSucceeds in Hq. apply truthy_inv in Hq as (s & -> & _).
      reflexivity.
    + rewrite IH. destruct (runProbes ifaces l1) as [tr [a|]]; [reflexivity|].
      now destruct (runProbes ifaces l2).
Qed.

Lemma scanMatchingT_runProbes (ifaces : Ifaces) (ifName : string)
  (names : list string) :
  scanMatchingT ifaces ifName names = runProbes ifaces (map (pair ifName) names).
Proof.
  induction names as [|m rest IH]; simpl; [reflexivity|].
  unfold probeSucceeds. simpl.
  destruct (truthy (findValidAddress (lookup ifaces m))); [reflexivity|].
  now rewrite IH.
Qed.

Lemma scanPrioritiesT_runProbes (platform : Platform) (ifaces : Ifaces)
  (priorities : list string) :
  scanPrioritiesT platform ifaces priorities
  = runProbes ifaces (allProbes platform ifaces priorities).
Proof.
  induction priorities as [|n rest IH]; simpl; [reflexivity|].
  rewrite runProbes_app, <- scanMatchingT_runProbes, IH. reflexivity.
Qed.

Lemma runProbes_hit (ifaces : Ifaces) (pre post : list (string * string))
  (q : string * string) :
  (forall x, In x pre -> probeSucceeds ifaces x = false) ->
  probeSucceeds ifaces q = true ->
  runProbes ifaces (pre ++ q :: post)
  = (map probeOf pre ++ [probeOf q], findValidAddress (lookup ifaces (snd q))).
Proof.
  intros Hpre Hq. induction pre as [|x pre IH]; simpl.
  - now rewrite Hq.
  - rewrite (Hpre x (or_introl eq_refl)), IH; [reflexivity|].
    intros y Hy. apply Hpre. now right.
Qed.

Lemma runProbes_miss (ifaces : Ifaces) (probes : list (string * string)) :
  (forall x, In x probes -> probeSucceeds ifaces x = false) ->
  runProbes ifaces probes = (map probeOf probes, None).
Proof.
  intros H. induction probes as [|x l IH]; simpl; [reflexivity|].
  rewrite (H x (or_introl eq_refl)), IH; [reflexivity|].
  intros y Hy. apply H. now right.
Qed.

Lemma in_allProbes (platform : Platform) (ifaces : Ifaces)
  (priorities : list string) (n m : string) :
  In (n, m) (allProbes platform ifaces priorities) <->
  In n priorities /\ In m (matchingIfaces platform ifaces n).
Proof.
  unfold allProbes. rewrite in_flat_map. split.
  - intros (x & Hx & Hin). apply in_map_iff in Hin as (y & [= <- <-] & Hy). tauto.
  - intros [Hn Hm]. exists n. split; [assumption|]. now apply in_map.
Qed.

Lemma no_Exhaustive_in_probes (l : list (string * string)) :
  ~ In Exhaustive (map probeOf l).
Proof.
  intros H. apply in_map_iff in H as (x & Hx & _). discriminate Hx.
Qed.

(** If some interface matched by the priority pass gives a non-empty address
    (the address of its first record accepted by the validator), then the
    scan returns the address of the first such probe in priority order, and
    its trace consists of the probes up to that one and nothing else: no
    later interface or priority name is probed and [scanAllInterfaces] is
    not called. *)
Lemma priority_pass_wins (h : Host) (ifName interfaceName : string) :
  let ifaces := os_networkInterfaces h in
  let platform := os_platform h in
  In ifName (platformPriorities platform) ->
  In interfaceName (matchingIfaces platform ifaces ifName) ->
  truthy (findValidAddress (lookup ifaces interfaceName)) = true ->
  exists pre q post a,
    allProbes platform ifaces (platformPriorities platform) = pre ++ q :: post
    /\ (forall x, In x pre -> probeSucceeds ifaces x = false)
    /\ findValidAddress (lookup ifaces (snd q)) = Some a
    /\ a <> EmptyString
    /\ scanPriorities platform ifaces (platformPriorities platform) = Some a
    /\ getLocalIPv4 h = a
    /\ fst (getLocalIPv4T h) = map probeOf pre ++ [probeOf q]
    /\ ~ In Exhaustive (fst (getLocalIPv4T h)).
Proof.
  intros ifaces platform Hn Hm Hy.
  destruct (first_hit (probeSucceeds ifaces)
              (allProbes platform ifaces (platformPriorities platform)))
    as (pre & q & post & Hsplit & Hpre & Hq).
  { exists (ifName, interfaceName). split; [now apply in_allProbes | exact Hy]. }
  pose proof Hq as Hq'. unfold probeSucceeds in Hq'.
  apply truthy_inv in Hq' as (a & Ha & Hne).
  assert (HT : scanPrioritiesT platform ifaces (platformPriorities platform)
               = (map probeOf pre ++ [probeOf q], Some a)).
  { rewrite scanPrioritiesT_runProbes, Hsplit, runProbes_hit by assumption.
    now rewrite Ha. }
  assert (HL : getLocalIPv4T h = (map probeOf pre ++ [probeOf q], a)).
  { unfold getLocalIPv4T. fold ifaces platform. now rewrite HT. }
  exists pre, q, post, a.
  split; [exact Hsplit|]. split; [exact Hpre|]. split; [exact Ha|].
  split; [exact Hne|]. split.
  { rewrite <- scanPrioritiesT_erase. now rewrite HT. }
  split.
  { rewrite <- getLocalIPv4T_erase. now rewrite HL. }
  rewrite HL. simpl. split; [reflexivity|].
  change [probeOf q] with (map probeOf [q]). rewrite <- map_app.
  apply no_Exhaustive_in_probes.
Qed.

Lemma priority_pass_wins_witness :
  truthy (findValidAddress (lookup (os_networkInterfaces linuxHost) "eth0")) = true
  /\ exists pre q post a,
    allProbes linux (os_networkInterfaces linuxHost) (platformPriorities linux)
    = pre ++ q :: post
    /\ (forall x, In x pre -> probeSucceeds (os_networkInterfaces linuxHost) x = false)
    /\ findValidAddress (lookup (os_networkInterfaces linuxHost) (snd q)) = Some a
    /\ a <> EmptyString
    /\ scanPriorities linux (os_networkInterfaces linuxHost) (platformPriorities linux)
       = Some a
    /\ getLocalIPv4 linuxHost = a
    /\ fst (getLocalIPv4T linuxHost) = map probeOf pre ++ [probeOf q]
    /\ ~ In Exhaustive (fst (getLocalIPv4T linuxHost)).
Proof.
  split; [reflexivity|].
  apply (priority_pass_wins linuxHost "eth0" "eth0").
  - simpl. now left.
  - simpl. now left.
  - reflexivity.
Defined.

(** The guard [if (addr)] at work on a table no host reports: a record that
    the validator accepts but whose address is the empty string does not end
    the priority pass. *)
Lemma priority_pass_blank_address :
  In "eth0" (platformPriorities (os_platform blankAddressHost))
  /\ In "eth0" (matchingIfaces (os_platform blankAddressHost)
                  (os_networkInterfaces blankAddressHost) "eth0")
  /\ lookup (os_networkInterfaces blankAddressHost) "eth0"
     = Some [mkAddress "IPv4" EmptyString false]
  /\ isUsable (mkAddress "IPv4" EmptyString false) = true
  /\ findValidAddress (lookup (os_networkInterfaces blankAddressHost) "eth0")
     = Some EmptyString
  /\ scanPriorities (os_platform blankAddressHost)
       (os_networkInterfaces blankAddressHost)
       (platformPriorities (os_platform blankAddressHost)) = None
  /\ In Exhaustive (fst (getLocalIPv4T blankAddressHost))
  /\ getLocalIPv4 blankAddressHost = "10.0.0.1".
Proof.
  repeat split; try reflexivity.
  - simpl. now left.
  - simpl. now left.
  - simpl. right. right. now left.
Qed.

(** C3. On a table whose accepted records carry a non-empty address, as the
    tables the host reports do: if an interface matched by the priority pass
    has a record that satisfies the validator, the scan returns a result of
    the priority pass, the address of the first successful probe in priority
    order; the trace holds the probes up to that one and nothing else, so no
    later interface or priority name is tried and the exhaustive pass does
    not run. *)
Theorem priority_pass_precedes (h : Host) (ifName interfaceName : string)
  (addresses : list AddressRecord) (r : AddressRecord) :
  let ifaces := os_networkInterfaces h in
  let platform := os_platform h in
  (forall name l x, In (name, Some l) ifaces -> In x l ->
                    isUsable x = true -> address x <> EmptyString) ->
  In ifName (platformPriorities platform) ->
  In interfaceName (matchingIfaces platform ifaces ifName) ->
  lookup ifaces interfaceName = Some addresses ->
  In r addresses ->
  isUsable r = true ->
  exists pre q post a,
    allProbes platform ifaces (platformPriorities platform) = pre ++ q :: post
    /\ (forall x, In x pre -> probeSucceeds ifaces x = false)
    /\ findValidAddress (lookup ifaces (snd q)) = Some a
    /\ a <> EmptyString
    /\ scanPriorities platform ifaces (platformPriorities platform) = Some a
    /\ getLocalIPv4 h = a
    /\ fst (getLocalIPv4T h) = map probeOf pre ++ [probeOf q]
    /\ ~ In Exhaustive (fst (getLocalIPv4T h)).
Proof.
  intros ifaces platform Hwf Hn Hm Hl Hr Hu.
  apply (priority_pass_wins h ifName interfaceName Hn Hm).
  fold ifaces. rewrite Hl. simpl.
  destruct (find isUsable addresses) as [x|] eqn:Hf.
  - apply find_some in Hf as [Hx Hux].
    apply truthy_Some.
    exact (Hwf interfaceName addresses x (lookup_Some_In _ _ _ Hl) Hx Hux).
  - rewrite (find_none _ _ Hf r Hr) in Hu. discriminate.
Qed.

Lemma priority_pass_precedes_witness :
  isUsable lanRecord = true
  /\ exists pre q post a,
    allProbes linux (os_networkInterfaces linuxHost) (platformPriorities linux)
    = pre ++ q :: post
    /\ (forall x, In x pre -> probeSucceeds (os_networkInterfaces linuxHost) x = false)
    /\ findValidAddress (lookup (os_networkInterfaces linuxHost) (snd q)) = Some a
    /\ a <> EmptyString
    /\ scanPriorities linux (os_networkInterfaces linuxHost) (platformPriorities linux)
       = Some a
    /\ getLocalIPv4 linuxHost = a
    /\ fst (getLocalIPv4T linuxHost) = map probeOf pre ++ [probeOf q]
    /\ ~ In Exhaustive (fst (getLocalIPv4T linuxHost)).
Proof.
  split; [reflexivity|].
  apply (priority_pass_precedes linuxHost "eth0" "eth0" [lanRecord] lanRecord).
  - intros name l x [[= <- <-] | []] [<- | []] _. discriminate.
  - simpl. now left.
  - simpl. now left.
  - reflexivity.
  - now left.
  - reflexivity.
Defined.

(** ** [getFFmpegPath] *)

Lemma tryPathsT_hit (h : Host) (pre post : list string) (x : string)
  (after : Completion (option string)) :
  (forall y, In y pre -> fs_exists h y = false) ->
  fs_exists h x = true ->
  tryPathsT h (pre ++ x :: post) after
  = (map Access pre ++ [Access x], Normal (Some x)).
Proof.
  intros Hpre Hx. induction pre as [|y pre IH]; simpl; unfold accessSync.
  - now rewrite Hx.
  - rewrite (Hpre y (or_introl eq_refl)), IH; [reflexivity|].
    intros z Hz. apply Hpre. now right.
Qed.

Lemma tryPathsT_miss (h : Host) (candidates : list string)
  (after : Completion (option string)) :
  (forall y, In y candidates -> fs_exists h y = false) ->
  tryPathsT h candidates after = (map Access candidates, after).
Proof.
  intros H. induction candidates as [|y l IH]; simpl; unfold accessSync;
    [reflexivity|].
  rewrite (H y (or_introl eq_refl)), IH; [reflexivity|].
  intros z Hz. apply H. now right.
Qed.

(** Every row of the table, and the default row, starts with a non-empty
    path. *)
Lemma platformPaths_head (platform : Platform) :
  exists first rest,
    platformPaths platform = first :: rest /\ first <> EmptyString.
Proof.
  destruct platform; simpl; eexists; eexists; (split; [reflexivity | discriminate]).
Qed.

Lemma platformPaths_nonempty (platform : Platform) (p : string) :
  In p (platformPaths platform) -> p <> EmptyString.
Proof.
  destruct platform; simpl; intuition (subst; discriminate).
Qed.

Lemma getFFmpegPath_returns (h : Host) (platform : Platform) :
  exists p,
    getFFmpegPath h platform = Normal (Some p)
    /\ In p (platformPaths platform) /\ p <> EmptyString.
Proof.
  destruct (platformPaths_head platform) as (first & rest & Hrow & Hne).
  rewrite <- getFFmpegPathT_erase. unfold getFFmpegPathT.
  destruct (existsb (fs_exists h) (platformPaths platform)) eqn:E.
  - apply existsb_exists in E.
    destruct (first_hit (fs_exists h) (platformPaths platform) E)
      as (pre & x & post & Hsplit & Hpre & Hx).
    exists x. split; [|split].
    + rewrite Hsplit at 1. now rewrite tryPathsT_hit.
    + rewrite Hsplit. apply in_or_app. right. now left.
    + apply (platformPaths_nonempty platform).
      rewrite Hsplit. apply in_or_app. right. now left.
  - rewrite tryPathsT_miss.
    + exists first. rewrite Hrow. simpl. repeat split; auto.
    + intros y Hy. destruct (fs_exists h y) eqn:Fy; [|reflexivity].
      assert (existsb (fs_exists h) (platformPaths platform) = true)
        by (apply existsb_exists; now exists y).
      congruence.
Qed.

(** C6. The candidate paths of the platform are checked in the order of the
    table and the first one that exists is returned; no path after it is
    checked.  When none exists the result is still the first candidate, a
    non-empty string, although its existence check failed. *)
Theorem getFFmpegPath_first_existing (h : Host) (platform : Platform) :
  (forall pre x post,
      platformPaths platform = pre ++ x :: post ->
      (forall y, In y pre -> fs_exists h y = false) ->
      fs_exists h x = true ->
      getFFmpegPath h platform = Normal (Some x)
      /\ fst (getFFmpegPathT h platform) = map Access pre ++ [Access x])
  /\ ((forall y, In y (platformPaths platform) -> fs_exists h y = false) ->
      exists first rest,
        platformPaths platform = first :: rest
        /\ first <> EmptyString
        /\ getFFmpegPath h platform = Normal (Some first)
        /\ fs_exists h first = false
        /\ fst (getFFmpegPathT h platform) = map Access (platformPaths platform)).
Proof.
  split.
  - intros pre x post Hsplit Hpre Hx.
    rewrite <- getFFmpegPathT_erase. unfold getFFmpegPathT.
    rewrite Hsplit at 1 3. now rewrite tryPathsT_hit.
  - intros Hnone.
    destruct (platformPaths_head platform) as (first & rest & Hrow & Hne).
    exists first, rest.
    rewrite <- getFFmpegPathT_erase. unfold getFFmpegPathT.
    rewrite tryPathsT_miss by assumption. rewrite Hrow. simpl.
    repeat split; auto.
    apply Hnone. rewrite Hrow. now left.
Qed.

Lemma getFFmpegPath_first_existing_witness :
  (getFFmpegPath macHostWithBrew darwin = Normal (Some "/opt/homebrew/bin/ffmpeg")
   /\ fst (getFFmpegPathT macHostWithBrew darwin)
      = map Access ["/usr/local/bin/ffmpeg"] ++ [Access "/opt/homebrew/bin/ffmpeg"])
  /\ exists first rest,
       platformPaths darwin = first :: rest
       /\ first <> EmptyString
       /\ getFFmpegPath linuxHost darwin = Normal (Some first)
       /\ fs_exists linuxHost first = false
       /\ fst (getFFmpegPathT linuxHost darwin) = map Access (platformPaths darwin).
Proof.
  split.
  - apply (proj1 (getFFmpegPath_first_existing macHostWithBrew darwin)
             ["/usr/local/bin/ffmpeg"] "/opt/homebrew/bin/ffmpeg" []).
    + reflexivity.
    + intros y [<-|[]]. reflexivity.
    + reflexivity.
  - apply (proj2 (getFFmpegPath_first_existing linuxHost darwin)).
    intros y _. reflexivity.
Defined.

(** ** Hosts without usable interface data *)

Section NoData.
Variable ifaces : Ifaces.
Hypothesis no_address :
  forall name v, In (name, v) ifaces -> truthy (findValidAddress v) = false.

Lemma lookup_no_address (k : string) :
  truthy (findValidAddress (lookup ifaces k)) = false.
Proof.
  destruct (lookup_in_table ifaces k) as [-> | Hin]; [reflexivity|].
  exact (no_address _ _ Hin).
Qed.

Lemma scanMatching_no_address (names : list string) :
  scanMatching ifaces names = None.
Proof.
  induction names as [|m rest IH]; simpl; [reflexivity|].
  now rewrite lookup_no_address.
Qed.

Lemma scanPriorities_no_address (platform : Platform) (priorities : list string) :
  scanPriorities platform ifaces priorities = None.
Proof.
  induction priorities as [|n rest IH]; simpl; [reflexivity|].
  now rewrite scanMatching_no_address.
Qed.
End NoData.

Lemma scanAllInterfaces_no_address (ifaces : Ifaces) (excludes : list string) :
  (forall name v, In (name, v) ifaces -> truthy (findValidAddress v) = false) ->
  scanAllInterfaces ifaces excludes = None.
Proof.
  induction ifaces as [|[name v] rest IH]; intros H; simpl; [reflexivity|].
  rewrite (H name v (or_introl eq_refl)), IH.
  - now destruct (isExcluded excludes name).
  - intros n w Hin. apply (H n w). now right.
Qed.

Lemma getLocalIPv4_no_address (h : Host) :
  (forall name v, In (name, v) (os_networkInterfaces h) ->
                  truthy (findValidAddress v) = false) ->
  getLocalIPv4 h = SENTINEL.
Proof.
  intros H. unfold getLocalIPv4.
  rewrite scanPriorities_no_address by assumption.
  now rewrite scanAllInterfaces_no_address.
Qed.

(** Outside the two early returns [getIPv4] is [getLocalIPv4]. *)
Lemma getIPv4_scans (environment : string) (h : Host) :
  environment <> "production" ->
  getIPv4 EmptyString environment false h = getLocalIPv4 h.
Proof.
  intros Hp. unfold getIPv4. simpl.
  destruct (environment =? "development"); [reflexivity|].
  destruct (environment =? "production") eqn:E; [|reflexivity].
  apply String.eqb_eq in E. contradiction.
Qed.

(** On the table of a host whose read returned.  [getFFmpegPath] completes
    normally with a non-empty candidate path even though [fs.accessSync] may
    throw at every candidate; with no existing candidate it is the first
    one, and for a platform without a row it is the default path.
    [getLocalIPv4] returns the sentinel whenever the table gives no address:
    an empty table, names mapped to no address array, or arrays without a
    record the validator accepts; so does [getIPv4] when it is the scan that
    decides. *)
Lemma core_total (h : Host) (platform : Platform) :
  (exists p, getFFmpegPath h platform = Normal (Some p) /\ p <> EmptyString)
  /\ ((forall y, In y (platformPaths platform) -> fs_exists h y = false) ->
      getFFmpegPath h platform = Normal (nth_error (platformPaths platform) 0))
  /\ (paths platform = None ->
      getFFmpegPath h platform = Normal (Some "/usr/bin/ffmpeg"))
  /\ (os_networkInterfaces h = [] -> getLocalIPv4 h = SENTINEL)
  /\ ((forall name v, In (name, v) (os_networkInterfaces h) -> v = None) ->
      getLocalIPv4 h = SENTINEL)
  /\ ((forall name v, In (name, v) (os_networkInterfaces h) ->
                      findValidAddress v = None) ->
      getLocalIPv4 h = SENTINEL
      /\ forall environment,
           environment <> "production" ->
           getIPv4 EmptyString environment false h = SENTINEL).
Proof.
  split; [|split; [|split; [|split; [|split]]]].
  - destruct (getFFmpegPath_returns h platform) as (p & Hp & _ & Hne).
    now exists p.
  - intros Hnone. rewrite <- getFFmpegPathT_erase. unfold getFFmpegPathT.
    now rewrite tryPathsT_miss.
  - intros Hrow. unfold getFFmpegPath, platformPaths. rewrite Hrow. simpl.
    unfold accessSync. now destruct (fs_exists h "/usr/bin/ffmpeg").
  - intros Hempty. apply getLocalIPv4_no_address. rewrite Hempty. intros ? ? [].
  - intros Hnone. apply getLocalIPv4_no_address.
    intros name v Hin. now rewrite (Hnone name v Hin).
  - intros Hnone.
    assert (HL : getLocalIPv4 h = SENTINEL).
    { apply getLocalIPv4_no_address. intros name v Hin.
      now rewrite (Hnone name v Hin). }
    split; [exact HL|].
    intros environment Hp. now rewrite getIPv4_scans.
Qed.

Lemma core_total_witness :
  let h := mkHost freebsd [("em0", None); ("lo0", Some [mkAddress "IPv4" "127.0.0.1" true])]
             noFiles noEnv in
  getFFmpegPath h freebsd = Normal (Some "/usr/bin/ffmpeg")
  /\ getLocalIPv4 h = SENTINEL
  /\ getIPv4 EmptyString "staging" false h = SENTINEL.
Proof.
  intros h.
  pose proof (core_total h freebsd) as (_ & _ & Hrow & _ & _ & Hnone).
  split; [apply Hrow; reflexivity|].
  assert (Hno : forall name v, In (name, v) (os_networkInterfaces h) ->
                               findValidAddress v = None).
  { intros name v [[= <- <-] | [[= <- <-] | []]]; reflexivity. }
  destruct (Hnone Hno) as [HL HI].
  split; [exact HL | apply HI; discriminate].
Defined.

(** ** The shape of the announced address *)

(** C8 as the specification words it fails: a non-empty override is returned
    as written, here an IPv6 literal, outside the production branch. *)
Lemma override_not_dotted_quad :
  "fe80::1" <> EmptyString
  /\ "development" <> "production"
  /\ getIPv4 "fe80::1" "development" false linuxHost = "fe80::1"
  /\ isDottedQuad (getIPv4 "fe80::1" "development" false linuxHost) = false.
Proof. repeat split; discriminate. Qed.

(** C8, as amended.  With a non-empty override the result is a dotted quad
    exactly when the override is one.  With an empty override the result is
    empty in production, and in every other mode it is a dotted quad,
    provided each record of the interface table that the validator accepts
    carries a dotted-quad address. *)
Theorem getIPv4_dotted_quad (announced_ip environment : string)
  (is_docker : bool) (h : Host) :
  (announced_ip <> EmptyString ->
   isDottedQuad (getIPv4 announced_ip environment is_docker h)
   = isDottedQuad announced_ip)
  /\ (announced_ip = EmptyString -> environment = "production" ->
      getIPv4 announced_ip environment is_docker h = EmptyString)
  /\ (announced_ip = EmptyString -> environment <> "production" ->
      (forall name addresses r,
          In (name, Some addresses) (os_networkInterfaces h) ->
          In r addresses -> isUsable r = true ->
          isDottedQuad (address r) = true) ->
      isDottedQuad (getIPv4 announced_ip environment is_docker h) = true).
Proof.
  split; [|split].
  - intros Hne. unfold getIPv4.
    now rewrite (proj2 (truthy_Some announced_ip) Hne).
  - intros -> ->. reflexivity.
  - intros -> Hp Htable.
    assert (HL : isDottedQuad (getLocalIPv4 h) = true).
    { destruct (getLocalIPv4_from_table h)
        as [-> | (name & l & r & Hin & Hr & Ha & Hu)]; [reflexivity|].
      rewrite <- Ha. now apply (Htable name l r). }
    unfold getIPv4. simpl.
    destruct (environment =? "development").
    + now destruct is_docker.
    + destruct (environment =? "production") eqn:E; [|exact HL].
      apply String.eqb_eq in E. contradiction.
Qed.

Lemma getIPv4_dotted_quad_witness :
  isDottedQuad (getIPv4 "fe80::1" "development" false linuxHost)
  = isDottedQuad "fe80::1"
  /\ getIPv4 EmptyString "production" true linuxHost = EmptyString
  /\ isDottedQuad (getIPv4 EmptyString "development" false linuxHost) = true.
Proof.
  split; [|split].
  - apply (proj1 (getIPv4_dotted_quad "fe80::1" "development" false linuxHost)).
    discriminate.
  - apply (proj1 (proj2 (getIPv4_dotted_quad EmptyString "production" true linuxHost)));
      reflexivity.
  - apply (proj2 (proj2 (getIPv4_dotted_quad EmptyString "development" false linuxHost))).
    + reflexivity.
    + discriminate.
    + intros name l r [[= <- <-] | []] [<- | []] _. reflexivity.
Defined.

(** ** Exclusions and the priority pass *)

(** C9. The excluded-name fragments are consulted by the exhaustive pass
    only.  On Windows the interface "vEthernet (WSL)" contains the priority
    name "Ethernet" and so is probed by the priority pass, which returns its
    address; yet its name contains the excluded fragment "vEthernet"
    (compared in lower case), and the exhaustive pass on the same table
    skips it. *)
Theorem priority_pass_ignores_exclusions :
  exists (h : Host) (name a : string),
    os_platform h = win32
    /\ In "Ethernet" (platformPriorities win32)
    /\ In name (matchingIfaces win32 (os_networkInterfaces h) "Ethernet")
    /\ In "vEthernet" (virtualExcludes win32)
    /\ includes (toLowerCase name) (toLowerCase "vEthernet") = true
    /\ isExcluded (virtualExcludes win32) name = true
    /\ findValidAddress (lookup (os_networkInterfaces h) name) = Some a
    /\ getLocalIPv4 h = a
    /\ a <> SENTINEL
    /\ fst (getLocalIPv4T h) = [Probe "Ethernet" name]
    /\ scanAllInterfaces (os_networkInterfaces h) (virtualExcludes win32) = None.
Proof.
  exists wslHost, "vEthernet (WSL)", "172.20.0.1".
  repeat split; try reflexivity; try discriminate.
  - simpl. now left.
  - simpl. now left.
  - simpl. do 5 right. now left.
Qed.

(** ** List-valued settings *)

Example parseList_sample :
  parseList " 10.0.0.1 ,, ::1,  " = ["10.0.0.1"; "::1"].
Proof. reflexivity. Qed.

Example users_sample :
  users (mkHost linux [] noFiles (envWith "HOST_USERS" "ann:pw:Ann:r1, r2|bob:p:q:w:x|carl"))
  = [ mkUser "ann" "pw" "Ann" (Some ["r1"; "r2"]);
      mkUser "bob" "p" "q" (Some ["w"]);
      mkUser "carl" EmptyString EmptyString (Some ["*"]) ].
Proof. reflexivity. Qed.

Example logLevels_sample :
  logLevels (mkHost linux [] noFiles (envWith "SENTRY_LOG_LEVELS" "error, warn,"))
  = ["error"; "warn"; EmptyString].
Proof. reflexivity. Qed.

(** *** [split] *)

Lemma split_cons (sep c : ascii) (rest : string) :
  split sep (String c rest)
  = if Ascii.eqb c sep then EmptyString :: split sep rest
    else String c (hd EmptyString (split sep rest)) :: tl (split sep rest).
Proof.
  simpl. destruct (Ascii.eqb c sep); [reflexivity|].
  now destruct (split sep rest).
Qed.

Lemma split_not_nil (sep : ascii) (s : string) : split sep s <> [].
Proof.
  destruct s as [|c rest]; [discriminate|].
  rewrite split_cons. destruct (Ascii.eqb c sep); discriminate.
Qed.

Lemma split_hd_tl (sep : ascii) (s : string) :
  split sep s = hd EmptyString (split sep s) :: tl (split sep s).
Proof.
  pose proof (split_not_nil sep s). now destruct (split sep s).
Qed.

Lemma hasChar_cons (c d : ascii) (s : string) :
  hasChar c (String d s) = Ascii.eqb c d || hasChar c s.
Proof. reflexivity. Qed.

Lemma countChar_cons (c d : ascii) (s : string) :
  countChar c (String d s)
  = if Ascii.eqb c d then S (countChar c s) else countChar c s.
Proof. unfold countChar. simpl. now destruct (Ascii.eqb c d). Qed.

Lemma hasChar_app (c : ascii) (a b : string) :
  hasChar c (a ++ b)%string = hasChar c a || hasChar c b.
Proof.
  induction a as [|d a IH]; [reflexivity|].
  simpl append. now rewrite !hasChar_cons, IH, orb_assoc.
Qed.

Lemma countChar_app (c : ascii) (a b : string) :
  countChar c (a ++ b)%string = countChar c a + countChar c b.
Proof.
  induction a as [|d a IH]; [reflexivity|].
  simpl append. rewrite !countChar_cons, IH. now destruct (Ascii.eqb c d).
Qed.

Lemma countChar_zero (c : ascii) (s : string) :
  countChar c s = 0 <-> hasChar c s = false.
Proof.
  induction s as [|d s IH]; [now split|].
  rewrite countChar_cons, hasChar_cons.
  destruct (Ascii.eqb c d); simpl; [split; discriminate | exact IH].
Qed.

(** No piece contains the separator. *)
Lemma split_no_sep (sep : ascii) (s piece : string) :
  In piece (split sep s) -> hasChar sep piece = false.
Proof.
  revert piece. induction s as [|c rest IH]; intros piece.
  - intros [<-|[]]. reflexivity.
  - rewrite split_cons. destruct (Ascii.eqb c sep) eqn:E.
    + intros [<-|Hin]; [reflexivity | now apply IH].
    + rewrite (split_hd_tl sep rest) in IH.
      intros [<-|Hin].
      * rewrite hasChar_cons, (Ascii.eqb_sym sep c), E. simpl.
        apply IH. now left.
      * apply IH. now right.
Qed.

(** One piece more than there are separators. *)
Lemma split_length (sep : ascii) (s : string) :
  List.length (split sep s) = S (countChar sep s).
Proof.
  induction s as [|c rest IH]; [reflexivity|].
  rewrite split_cons, countChar_cons, (Ascii.eqb_sym sep c).
  destruct (Ascii.eqb c sep).
  - cbn [List.length]. now rewrite IH.
  - rewrite (split_hd_tl sep rest) in IH. exact IH.
Qed.

Lemma concat_cons_char (sep : string) (c : ascii) (p : string) (ps : list string) :
  String.concat sep (String c p :: ps) = String c (String.concat sep (p :: ps)).
Proof. destruct ps; reflexivity. Qed.

(** Joining the pieces with the separator gives the string back. *)
Lemma concat_split (sep : ascii) (s : string) :
  String.concat (String sep EmptyString) (split sep s) = s.
Proof.
  induction s as [|c rest IH]; [reflexivity|].
  rewrite split_cons. rewrite (split_hd_tl sep rest) in IH.
  destruct (Ascii.eqb c sep) eqn:E.
  - apply Ascii.eqb_eq in E. subst c.
    rewrite (split_hd_tl sep rest).
    transitivity
      (String sep (String.concat (String sep EmptyString)
                     (hd EmptyString (split sep rest) :: tl (split sep rest))));
      [reflexivity | now rewrite IH].
  - now rewrite concat_cons_char, IH.
Qed.

Lemma split_no_sep_id (sep : ascii) (s : string) :
  hasChar sep s = false -> split sep s = [s].
Proof.
  induction s as [|c rest IH]; [reflexivity|].
  rewrite hasChar_cons. intros H. apply orb_false_iff in H as [Hc Hr].
  rewrite split_cons, (Ascii.eqb_sym c sep), Hc, (IH Hr). reflexivity.
Qed.

Lemma split_app (sep : ascii) (a b : string) :
  split sep (a ++ String sep b)%string
  = removelast (split sep a) ++ [last (split sep a) EmptyString] ++ split sep b.
Proof.
  induction a as [|c a IH].
  - simpl append. rewrite split_cons, Ascii.eqb_refl. reflexivity.
  - simpl append. rewrite !split_cons, IH.
    pose proof (split_not_nil sep a) as Hn.
    destruct (Ascii.eqb c sep); destruct (split sep a) as [|p [|q qs]];
      try contradiction; reflexivity.
Qed.

Lemma split_app_no_sep (sep : ascii) (a b : string) :
  hasChar sep a = false ->
  split sep (a ++ String sep b)%string = a :: split sep b.
Proof.
  intros H. now rewrite split_app, (split_no_sep_id sep a H).
Qed.

(** Splitting a joined list of separator-free items gives the items back. *)
Lemma split_concat (sep : ascii) (items : list string) :
  items <> [] ->
  (forall x, In x items -> hasChar sep x = false) ->
  split sep (String.concat (String sep EmptyString) items) = items.
Proof.
  induction items as [|x [|y ys] IH]; intros Hne Hclean; [contradiction| |].
  - simpl. apply split_no_sep_id. apply Hclean. now left.
  - change (String.concat (String sep EmptyString) (x :: y :: ys))
      with (x ++ String sep (String.concat (String sep EmptyString) (y :: ys)))%string.
    rewrite split_app_no_sep by (apply Hclean; now left).
    rewrite IH; [reflexivity | discriminate |].
    intros z Hz. apply Hclean. now right.
Qed.

(** *** [trim] *)

Lemma trimEnd_cons (c : ascii) (rest : string) :
  trimEnd (String c rest)
  = if (trimEnd rest =? EmptyString) && isWhiteSpace c then EmptyString
    else String c (trimEnd rest).
Proof.
  simpl. destruct (trimEnd rest); simpl; [|reflexivity].
  now destruct (isWhiteSpace c).
Qed.

Lemma trimStart_first (s : string) (c : ascii) :
  firstChar (trimStart s) = Some c -> isWhiteSpace c = false.
Proof.
  induction s as [|d s IH]; simpl; [discriminate|].
  destruct (isWhiteSpace d) eqn:E; [exact IH|].
  simpl. intros [= <-]. exact E.
Qed.

Lemma trimStart_id (s : string) (c : ascii) :
  firstChar s = Some c -> isWhiteSpace c = false -> trimStart s = s.
Proof.
  destruct s as [|d s]; simpl; [discriminate|].
  intros [= ->] ->. reflexivity.
Qed.

Lemma trimStart_empty (s : string) :
  trimStart s = EmptyString <-> allWhiteSpace s = true.
Proof.
  unfold allWhiteSpace. induction s as [|d s IH]; simpl; [tauto|].
  destruct (isWhiteSpace d); simpl; [exact IH|].
  split; discriminate.
Qed.

Lemma trimEnd_empty (s : string) :
  trimEnd s = EmptyString <-> allWhiteSpace s = true.
Proof.
  unfold allWhiteSpace. induction s as [|d s IH]; [simpl; tauto|].
  rewrite trimEnd_cons. cbn [list_ascii_of_string forallb].
  destruct (trimEnd s) as [|e t] eqn:T; simpl.
  - destruct (isWhiteSpace d); simpl.
    + split; [intros _; now apply IH | reflexivity].
    + split; discriminate.
  - split; [discriminate|].
    intros H. apply andb_true_iff in H as [_ H]. apply IH in H. discriminate.
Qed.

Lemma trimEnd_first (s : string) :
  trimEnd s <> EmptyString -> firstChar (trimEnd s) = firstChar s.
Proof.
  destruct s as [|d s]; [reflexivity|].
  rewrite trimEnd_cons.
  destruct ((trimEnd s =? EmptyString) && isWhiteSpace d); [congruence | reflexivity].
Qed.

Lemma trimEnd_last (s : string) (c : ascii) :
  lastChar (trimEnd s) = Some c -> isWhiteSpace c = false.
Proof.
  induction s as [|d s IH]; [discriminate|].
  rewrite trimEnd_cons.
  destruct (trimEnd s) as [|e t] eqn:T; simpl.
  - destruct (isWhiteSpace d) eqn:E; simpl; [discriminate|].
    intros [= <-]. exact E.
  - exact IH.
Qed.

Lemma trimEnd_id (s : string) (c : ascii) :
  lastChar s = Some c -> isWhiteSpace c = false -> trimEnd s = s.
Proof.
  induction s as [|d s IH]; [discriminate|].
  intros Hl Hc. rewrite trimEnd_cons.
  destruct s as [|e t].
  - simpl in Hl. injection Hl as ->. simpl. now rewrite Hc.
  - rewrite IH by assumption. reflexivity.
Qed.

Lemma trim_empty (s : string) :
  trim s = EmptyString <-> allWhiteSpace s = true.
Proof.
  unfold trim. rewrite trimEnd_empty. split.
  - intros H. destruct (trimStart s) as [|c t] eqn:T.
    + now apply trimStart_empty.
    + assert (Hc : isWhiteSpace c = false)
        by (apply (trimStart_first s); now rewrite T).
      unfold allWhiteSpace in H. simpl in H. rewrite Hc in H. discriminate.
  - intros H. apply trimStart_empty in H. now rewrite H.
Qed.

Lemma lastChar_None (s : string) : lastChar s = None -> s = EmptyString.
Proof.
  induction s as [|c s IH]; [reflexivity|].
  simpl. destruct s as [|d t]; [discriminate|].
  intros H. specialize (IH H). discriminate.
Qed.

(** What [trim] returns is empty or has no white space at either end. *)
Lemma trim_isTrimmed (s : string) :
  trim s <> EmptyString -> isTrimmed (trim s) = true.
Proof.
  intros Hne. unfold isTrimmed.
  pose proof (trimEnd_first (trimStart s) Hne) as Hf. fold (trim s) in Hf.
  destruct (firstChar (trim s)) as [a|] eqn:Fa.
  - symmetry in Hf. apply trimStart_first in Hf.
    destruct (lastChar (trim s)) as [b|] eqn:Lb.
    + apply trimEnd_last in Lb. now rewrite Hf, Lb.
    + apply lastChar_None in Lb. contradiction.
  - destruct (trim s); [congruence | discriminate].
Qed.

(** [trim] leaves such a string as it is. *)
Lemma isTrimmed_trim (s : string) : isTrimmed s = true -> trim s = s.
Proof.
  unfold isTrimmed, trim.
  destruct (firstChar s) as [a|] eqn:Fa; [|discriminate].
  destruct (lastChar s) as [b|] eqn:Lb; [|discriminate].
  rewrite andb_true_iff, !negb_true_iff. intros [Ha Hb].
  rewrite (trimStart_id s a Fa Ha). exact (trimEnd_id s b Lb Hb).
Qed.

Lemma isTrimmed_nonempty (s : string) : isTrimmed s = true -> s <> EmptyString.
Proof. intros H ->. discriminate. Qed.

Lemma hasChar_trimStart (c : ascii) (s : string) :
  hasChar c (trimStart s) = true -> hasChar c s = true.
Proof.
  induction s as [|d s IH]; simpl; [discriminate|].
  destruct (isWhiteSpace d); [|auto].
  intros H. rewrite hasChar_cons, (IH H). apply orb_true_r.
Qed.

Lemma hasChar_trimEnd (c : ascii) (s : string) :
  hasChar c (trimEnd s) = true -> hasChar c s = true.
Proof.
  induction s as [|d s IH]; [discriminate|].
  rewrite trimEnd_cons.
  destruct ((trimEnd s =? EmptyString) && isWhiteSpace d); [discriminate|].
  rewrite !hasChar_cons. intros H. apply orb_true_iff in H as [H|H].
  - now rewrite H.
  - rewrite (IH H). apply orb_true_r.
Qed.

Lemma hasChar_trim (c : ascii) (s : string) :
  hasChar c s = false -> hasChar c (trim s) = false.
Proof.
  intros H. destruct (hasChar c (trim s)) eqn:E; [|reflexivity].
  apply hasChar_trimEnd, hasChar_trimStart in E. congruence.
Qed.

(** *** [parseList] and the settings built on it *)

Lemma filter_nil_iff {A : Type} (f : A -> bool) (l : list A) :
  filter f l = [] <-> forallb (fun x => negb (f x)) l = true.
Proof.
  induction l as [|a l IH]; simpl; [tauto|].
  destruct (f a); simpl; [split; discriminate | exact IH].
Qed.

Lemma forallb_allWhiteSpace_split (s : string) :
  forallb allWhiteSpace (split splitChar s) = isBlankList s.
Proof.
  unfold isBlankList. induction s as [|c rest IH]; [reflexivity|].
  rewrite split_cons. cbn [list_ascii_of_string forallb].
  rewrite <- IH. destruct (Ascii.eqb c splitChar).
  - cbn [forallb]. now rewrite orb_true_r.
  - rewrite (split_hd_tl splitChar rest). cbn [forallb hd tl].
    unfold allWhiteSpace at 1. cbn [list_ascii_of_string forallb].
    fold (allWhiteSpace (hd EmptyString (split splitChar rest))).
    now rewrite orb_false_r, andb_assoc.
Qed.

Lemma parseList_nil (s : string) : parseList s = [] <-> isBlankList s = true.
Proof.
  unfold parseList. rewrite filter_nil_iff, <- forallb_allWhiteSpace_split.
  assert (E : forall l,
             forallb (fun x => negb (negb (x =? EmptyString))) (map trim l)
             = forallb allWhiteSpace l).
  { induction l as [|x l IHl]; [reflexivity|]. simpl. rewrite IHl. f_equal.
    rewrite negb_involutive.
    destruct (trim x =? EmptyString) eqn:T.
    - apply String.eqb_eq in T. symmetry. now apply trim_empty.
    - destruct (allWhiteSpace x) eqn:W; [|reflexivity].
      apply trim_empty in W. rewrite W in T. discriminate. }
  now rewrite E.
Qed.

Lemma parseList_In (s x : string) :
  In x (parseList s) <->
  x <> EmptyString /\ exists piece, In piece (split splitChar s) /\ trim piece = x.
Proof.
  unfold parseList. rewrite filter_In, in_map_iff, negb_true_iff. split.
  - intros [(p & Hp & Hin) Hx]. split; [|now exists p].
    intros ->. discriminate.
  - intros [Hx (p & Hin & Hp)]. split; [now exists p|].
    destruct (x =? EmptyString) eqn:E; [|reflexivity].
    apply String.eqb_eq in E. contradiction.
Qed.

Lemma split_hasChar (sep c : ascii) (s piece : string) :
  In piece (split sep s) -> hasChar c piece = true -> hasChar c s = true.
Proof.
  revert piece. induction s as [|d rest IH]; intros piece.
  - intros [<-|[]]. discriminate.
  - rewrite split_cons, hasChar_cons. destruct (Ascii.eqb d sep).
    + intros [<-|Hin] H; [discriminate|].
      rewrite (IH piece Hin H). apply orb_true_r.
    + rewrite (split_hd_tl sep rest) in IH. intros [<-|Hin] H.
      * rewrite hasChar_cons in H. apply orb_true_iff in H as [H|H].
        -- now rewrite H.
        -- rewrite (IH _ (or_introl eq_refl) H). apply orb_true_r.
      * rewrite (IH piece (or_intror Hin) H). apply orb_true_r.
Qed.

(** Every item [parseList] returns is non-empty, has no white space at
    either end and contains no comma; a character absent from the input is
    absent from every item. *)
Lemma parseList_clean (s x : string) :
  In x (parseList s) ->
  x <> EmptyString
  /\ isTrimmed x = true
  /\ hasChar splitChar x = false
  /\ forall c, hasChar c s = false -> hasChar c x = false.
Proof.
  intros H. apply parseList_In in H as [Hne (p & Hin & <-)].
  split; [exact Hne|]. split; [now apply trim_isTrimmed|]. split.
  - apply hasChar_trim. now apply (split_no_sep splitChar s).
  - intros c Hc. apply hasChar_trim.
    destruct (hasChar c p) eqn:E; [|reflexivity].
    rewrite (split_hasChar splitChar c s p Hin E) in Hc. discriminate.
Qed.

(** X5. Every entry of the IP whitelist and of the presenter list, parsed or
    default, is a non-empty string without white space at either end and
    without a comma. *)
Theorem list_settings_clean (h : Host) (x : string) :
  In x (allowedIPs h) \/ In x (presenters_list h) ->
  x <> EmptyString /\ isTrimmed x = true /\ hasChar splitChar x = false.
Proof.
  unfold allowedIPs, presenters_list. intros [H|H].
  - destruct (envTruthy h "IP_WHITELIST_ALLOWED") as [s|].
    + apply parseList_clean in H. tauto.
    + destruct H as [<-|[<-|[]]]; repeat split; discriminate.
  - destruct (envTruthy h "PRESENTERS") as [s|].
    + apply parseList_clean in H. tauto.
    + destruct H as [<-|[<-|[]]]; repeat split; discriminate.
Qed.

Lemma list_settings_clean_witness :
  let h := mkHost linux [] noFiles (envWith "PRESENTERS" " ann ,, bob@example.org ") in
  In "bob@example.org" (presenters_list h)
  /\ "bob@example.org" <> EmptyString
  /\ isTrimmed "bob@example.org" = true
  /\ hasChar splitChar "bob@example.org" = false.
Proof.
  intros h.
  assert (H : In "bob@example.org" (presenters_list h)) by (simpl; tauto).
  split; [exact H | exact (list_settings_clean h _ (or_intror H))].
Defined.

Lemma parseList_concat (items : list string) :
  (forall x, In x items -> isTrimmed x = true /\ hasChar splitChar x = false) ->
  parseList (String.concat "," items) = items.
Proof.
  intros Hclean. destruct items as [|y ys]; [reflexivity|].
  unfold parseList.
  change ","%string with (String splitChar EmptyString).
  rewrite split_concat; [|discriminate | intros x Hx; now apply Hclean].
  generalize (y :: ys) Hclean. clear. intros l Hclean.
  induction l as [|x l IH]; [reflexivity|].
  destruct (Hclean x (or_introl eq_refl)) as [Ht _].
  simpl. rewrite (isTrimmed_trim x Ht).
  destruct (x =? EmptyString) eqn:E.
  - apply String.eqb_eq in E. subst. discriminate.
  - simpl. f_equal. apply IH. intros z Hz. apply Hclean. now right.
Qed.

Lemma concat_nonempty (sep x : string) (xs : list string) :
  x <> EmptyString -> String.concat sep (x :: xs) <> EmptyString.
Proof.
  intros Hx. destruct x as [|c x]; [contradiction|].
  destruct xs; simpl; discriminate.
Qed.

Lemma envTruthy_Some (h : Host) (key s : string) :
  envTruthy h key = Some s <-> process_env h key = Some s /\ s <> EmptyString.
Proof.
  unfold envTruthy. destruct (process_env h key) as [t|]; [|split; [discriminate | intros [? _]; discriminate]].
  destruct (truthy (Some t)) eqn:T.
  - apply truthy_Some in T. split.
    + intros [= <-]. now split.
    + intros [[= <-] _]. reflexivity.
  - split; [discriminate|]. intros [[= <-] Hne].
    apply truthy_Some in Hne. congruence.
Qed.

Lemma envTruthy_None (h : Host) (key : string) :
  envTruthy h key = None <->
  process_env h key = None \/ process_env h key = Some EmptyString.
Proof.
  unfold envTruthy. destruct (process_env h key) as [t|]; [|tauto].
  destruct t as [|c t]; simpl.
  - split; auto.
  - split; [discriminate | intros [H|H]; discriminate].
Qed.

(** X6. Round trip of the IP whitelist: when [IP_WHITELIST_ALLOWED] is the
    comma-joined form of a non-empty list of ASCII items that are non-empty,
    have no white space at either end and contain no comma, [allowedIPs] is
    that list, in the same order. *)
Theorem allowedIPs_round_trip (h : Host) (items : list string) :
  isAscii (String.concat "," items) = true ->
  items <> [] ->
  (forall x, In x items -> isTrimmed x = true /\ hasChar splitChar x = false) ->
  process_env h "IP_WHITELIST_ALLOWED" = Some (String.concat "," items) ->
  allowedIPs h = items.
Proof.
  intros _ Hne Hclean Henv. unfold allowedIPs.
  assert (Ht : envTruthy h "IP_WHITELIST_ALLOWED" = Some (String.concat "," items)).
  { apply envTruthy_Some. split; [exact Henv|].
    destruct items as [|y ys]; [contradiction|].
    apply concat_nonempty, isTrimmed_nonempty, Hclean. now left. }
  rewrite Ht. now apply parseList_concat.
Qed.

Lemma allowedIPs_round_trip_witness :
  allowedIPs (mkHost linux [] noFiles (envWith "IP_WHITELIST_ALLOWED" "10.0.0.7,::1"))
  = ["10.0.0.7"; "::1"].
Proof.
  apply allowedIPs_round_trip.
  - reflexivity.
  - discriminate.
  - intros x [<-|[<-|[]]]; split; reflexivity.
  - reflexivity.
Defined.

(** X7. For an ASCII value of [IP_WHITELIST_ALLOWED]: the IP whitelist is
    empty exactly when the variable is set to a non-empty string made of
    commas and white space only; when the variable is unset or empty the
    list is the two loopback addresses. *)
Theorem allowedIPs_empty (h : Host) :
  (forall s, process_env h "IP_WHITELIST_ALLOWED" = Some s -> isAscii s = true) ->
  (allowedIPs h = [] <->
   exists s, process_env h "IP_WHITELIST_ALLOWED" = Some s
             /\ s <> EmptyString /\ isBlankList s = true)
  /\ (process_env h "IP_WHITELIST_ALLOWED" = None
      \/ process_env h "IP_WHITELIST_ALLOWED" = Some EmptyString ->
      allowedIPs h = ["127.0.0.1"; "::1"]).
Proof.
  intros _. split.
  - unfold allowedIPs.
    destruct (envTruthy h "IP_WHITELIST_ALLOWED") as [s|] eqn:E.
    + apply envTruthy_Some in E as [Henv Hne]. rewrite parseList_nil. split.
      * intros Hb. now exists s.
      * intros (t & Ht & _ & Hb). congruence.
    + split; [discriminate|].
      intros (t & Ht & Hne & _).
      apply envTruthy_None in E as [E|E]; rewrite E in Ht; congruence.
  - intros H. apply envTruthy_None in H. unfold allowedIPs. now rewrite H.
Qed.

Lemma allowedIPs_empty_witness :
  allowedIPs (mkHost linux [] noFiles (envWith "IP_WHITELIST_ALLOWED" " , ,")) = []
  /\ allowedIPs linuxHost = ["127.0.0.1"; "::1"].
Proof.
  split.
  - refine (proj2 (proj1 (allowedIPs_empty _ _)) _).
    + intros s [= <-]. reflexivity.
    + exists " , ,".
      split; [reflexivity | split; [discriminate | reflexivity]].
  - refine (proj2 (allowedIPs_empty linuxHost _) _).
    + intros s H. discriminate H.
    + now left.
Defined.

(** *** [security.host.users] *)

Lemma orElse_empty (o : option string) :
  orElse o EmptyString = match o with Some s => s | None => EmptyString end.
Proof. destruct o as [[|c s]|]; reflexivity. Qed.

Lemma nth_error_split_clean (sep c : ascii) (s : string) (i : nat) :
  hasChar c (orElse (nth_error (split sep s) i) EmptyString) = true ->
  c <> sep /\ hasChar c s = true.
Proof.
  rewrite orElse_empty.
  destruct (nth_error (split sep s) i) as [f|] eqn:E; [|discriminate].
  apply nth_error_In in E. intros H. split.
  - intros ->. rewrite (split_no_sep sep s f E) in H. discriminate.
  - exact (split_hasChar sep c s f E H).
Qed.

Lemma hasChar_concat (c : ascii) (sep : string) (items : list string) :
  hasChar c sep = false ->
  (forall x, In x items -> hasChar c x = false) ->
  hasChar c (String.concat sep items) = false.
Proof.
  intros Hsep. induction items as [|x [|y ys] IH]; intros H; [reflexivity| |].
  - apply H. now left.
  - change (String.concat sep (x :: y :: ys))
      with (x ++ sep ++ String.concat sep (y :: ys))%string.
    rewrite !hasChar_app, Hsep, (H x (or_introl eq_refl)), IH; [reflexivity|].
    intros z Hz. apply H. now right.
Qed.

Lemma cleanField_spec (s : string) :
  cleanField s = true <-> hasChar ":" s = false /\ hasChar "|" s = false.
Proof.
  unfold cleanField. now rewrite andb_true_iff, !negb_true_iff.
Qed.

Lemma cleanRoom_spec (s : string) :
  cleanRoom s = true <->
  isTrimmed s = true /\ hasChar splitChar s = false
  /\ hasChar ":" s = false /\ hasChar "|" s = false.
Proof.
  unfold cleanRoom. rewrite !andb_true_iff, negb_true_iff, cleanField_spec. tauto.
Qed.

(** What [parseUser] builds from one ['|']-free piece. *)
Lemma parseUser_clean (userStr : string) :
  hasChar "|" userStr = false ->
  cleanField (username (parseUser userStr)) = true
  /\ cleanField (password (parseUser userStr)) = true
  /\ cleanField (displayname (parseUser userStr)) = true
  /\ exists rooms,
       allowed_rooms (parseUser userStr) = Some rooms
       /\ forallb cleanRoom rooms = true.
Proof.
  intros Hbar.
  assert (F : forall i,
             cleanField (orElse (nth_error (split ":" userStr) i) EmptyString) = true).
  { intros i. apply cleanField_spec.
    pose proof (nth_error_split_clean ":" ":" userStr i) as H1.
    pose proof (nth_error_split_clean ":" "|" userStr i) as H2.
    destruct (hasChar ":" (orElse _ _));
      [destruct (H1 eq_refl) as [H _]; congruence|].
    destruct (hasChar "|" (orElse _ _));
      [destruct (H2 eq_refl) as [_ H]; congruence|].
    now split. }
  unfold parseUser. cbn [username password displayname allowed_rooms].
  repeat (split; [apply F|]).
  eexists. split; [reflexivity|].
  destruct (truthy (nth_error (split ":" userStr) 3)) eqn:T; [|reflexivity].
  apply forallb_forall. intros r Hr.
  apply parseList_clean in Hr as (_ & Ht & Hc & Hsub).
  specialize (F 3). apply cleanField_spec in F as [F1 F2].
  apply cleanRoom_spec. repeat split; auto.
Qed.

(** X8. When [HOST_USERS] is set and not empty there is one user per
    ['|']-separated piece, one more than there are bars.  No field of a
    parsed user holds [':'] or ['|']; its allowed rooms are always
    defined, and each room is non-empty, without white space at either end
    and without [','], [':'] or ['|']. *)
Theorem users_parsed (h : Host) (s : string) :
  process_env h "HOST_USERS" = Some s -> s <> EmptyString ->
  List.length (users h) = S (countChar "|" s)
  /\ forall u, In u (users h) ->
       cleanField (username u) = true
       /\ cleanField (password u) = true
       /\ cleanField (displayname u) = true
       /\ exists rooms,
            allowed_rooms u = Some rooms /\ forallb cleanRoom rooms = true.
Proof.
  intros Henv Hne. unfold users.
  rewrite (proj2 (envTruthy_Some h "HOST_USERS" s) (conj Henv Hne)).
  split.
  - now rewrite length_map, split_length.
  - intros u Hu. apply in_map_iff in Hu as (piece & <- & Hin).
    apply parseUser_clean. exact (split_no_sep "|" s piece Hin).
Qed.

Lemma users_parsed_witness :
  let h := mkHost linux [] noFiles (envWith "HOST_USERS" "ann:pw:Ann:r1, r2|carl") in
  List.length (users h) = 2
  /\ forall u, In u (users h) ->
       cleanField (username u) = true
       /\ cleanField (password u) = true
       /\ cleanField (displayname u) = true
       /\ exists rooms,
            allowed_rooms u = Some rooms /\ forallb cleanRoom rooms = true.
Proof.
  intros h. apply (users_parsed h "ann:pw:Ann:r1, r2|carl").
  - reflexivity.
  - discriminate.
Defined.

Lemma split_fields (a b c d : string) :
  hasChar ":" a = false -> hasChar ":" b = false ->
  hasChar ":" c = false -> hasChar ":" d = false ->
  split ":" (a ++ ":" ++ b ++ ":" ++ c ++ ":" ++ d)%string = [a; b; c; d].
Proof.
  intros Ha Hb Hc Hd.
  change (a ++ ":" ++ b ++ ":" ++ c ++ ":" ++ d)%string
    with (a ++ String ":" (b ++ String ":" (c ++ String ":" d)))%string.
  now rewrite !split_app_no_sep, (split_no_sep_id ":" d Hd).
Qed.

Lemma parseUser_formatUser (u : HostUser) :
  wellFormedUser u = true -> parseUser (formatUser u) = u.
Proof.
  destruct u as [un pw dn [[|r rs]|]]; unfold wellFormedUser;
    cbn [username password displayname allowed_rooms];
    rewrite ?andb_false_r; try discriminate.
  rewrite !andb_true_iff, !cleanField_spec.
  intros [[[[Hu _] [Hp _]] [Hd _]] Hrooms].
  assert (Hclean : forall x, In x (r :: rs) ->
                     isTrimmed x = true /\ hasChar splitChar x = false).
  { intros x Hx. apply (proj1 (forallb_forall _ _) Hrooms) in Hx.
    apply cleanRoom_spec in Hx. tauto. }
  assert (Hcolon : hasChar ":" (String.concat "," (r :: rs)) = false).
  { apply hasChar_concat; [reflexivity|]. intros x Hx.
    apply (proj1 (forallb_forall _ _) Hrooms) in Hx.
    apply cleanRoom_spec in Hx. tauto. }
  assert (Hne : String.concat "," (r :: rs) <> EmptyString).
  { apply concat_nonempty, isTrimmed_nonempty, Hclean. now left. }
  unfold parseUser, formatUser.
  cbn [username password displayname allowed_rooms].
  rewrite (split_fields un pw dn _ Hu Hp Hd Hcolon).
  cbn [nth_error]. rewrite !orElse_empty.
  rewrite (proj2 (truthy_Some _) Hne), (parseList_concat _ Hclean).
  reflexivity.
Qed.

Lemma formatUser_no_bar (u : HostUser) :
  wellFormedUser u = true -> hasChar "|" (formatUser u) = false.
Proof.
  destruct u as [un pw dn [[|r rs]|]]; unfold wellFormedUser;
    cbn [username password displayname allowed_rooms];
    rewrite ?andb_false_r; try discriminate.
  rewrite !andb_true_iff, !cleanField_spec.
  intros [[[[_ Hu] [_ Hp]] [_ Hd]] Hrooms].
  unfold formatUser. cbn [username password displayname allowed_rooms].
  rewrite !hasChar_app, Hu, Hp, Hd.
  change (hasChar "|" ":") with false. cbn [orb].
  apply hasChar_concat; [reflexivity|]. intros x Hx.
  apply (proj1 (forallb_forall _ _) Hrooms) in Hx.
  apply cleanRoom_spec in Hx. tauto.
Qed.

Lemma formatUser_nonempty (u : HostUser) : formatUser u <> EmptyString.
Proof.
  unfold formatUser. destruct (username u); discriminate.
Qed.

(** X9. Round trip of the documented [HOST_USERS] format: for a non-empty
    list of users, written in ASCII, whose fields hold neither [':'] nor
    ['|'] and whose room lists are non-empty lists of clean room names,
    setting [HOST_USERS] to users joined by ['|'], fields by [':'] and rooms
    by [','] makes [users] that very list. *)
Theorem users_round_trip (h : Host) (us : list HostUser) :
  isAscii (formatUsers us) = true ->
  us <> [] ->
  forallb wellFormedUser us = true ->
  process_env h "HOST_USERS" = Some (formatUsers us) ->
  users h = us.
Proof.
  intros _ Hne Hwf Henv.
  assert (Hall : forall u, In u us -> wellFormedUser u = true)
    by (now apply forallb_forall).
  assert (Hs : formatUsers us <> EmptyString).
  { destruct us as [|u rest]; [contradiction|].
    apply concat_nonempty, formatUser_nonempty. }
  unfold users.
  rewrite (proj2 (envTruthy_Some h "HOST_USERS" _) (conj Henv Hs)).
  unfold formatUsers. change "|"%string with (String "|"%char EmptyString).
  rewrite split_concat.
  - rewrite map_map. clear -Hall.
    induction us as [|u rest IH]; [reflexivity|]. simpl.
    rewrite parseUser_formatUser by (apply Hall; now left).
    f_equal. apply IH. intros v Hv. apply Hall. now right.
  - destruct us; [contradiction | discriminate].
  - intros x Hx. apply in_map_iff in Hx as (u & <- & Hu).
    apply formatUser_no_bar, Hall, Hu.
Qed.

Lemma users_round_trip_witness :
  let us := [mkUser "ann" "pw" "Ann Lee" (Some ["r1"; "r2"]);
             mkUser "bob" EmptyString "Bob" (Some ["*"])] in
  formatUsers us = "ann:pw:Ann Lee:r1,r2|bob::Bob:*"
  /\ users (mkHost linux [] noFiles (envWith "HOST_USERS" (formatUsers us))) = us.
Proof.
  intros us. split; [reflexivity|].
  apply users_round_trip; [reflexivity | discriminate | reflexivity | reflexivity].
Defined.

(** X10. Only the first four [':']-separated fields of a user are read:
    whatever follows a fourth colon is ignored. *)
Theorem parseUser_ignores_rest (userStr rest : string) :
  3 <= countChar ":" userStr ->
  parseUser (userStr ++ ":" ++ rest) = parseUser userStr.
Proof.
  intros Hc.
  assert (E : split ":" (userStr ++ ":" ++ rest)%string
              = split ":" userStr ++ split ":" rest).
  { change (userStr ++ ":" ++ rest)%string with (userStr ++ String ":" rest)%string.
    rewrite split_app, app_assoc, <- app_removelast_last; [reflexivity|].
    apply split_not_nil. }
  assert (N : forall i, i < 4 ->
                nth_error (split ":" (userStr ++ ":" ++ rest)%string) i
                = nth_error (split ":" userStr) i).
  { intros i Hi. rewrite E. apply nth_error_app1. rewrite split_length. lia. }
  unfold parseUser. now rewrite !N by lia.
Qed.

Lemma parseUser_ignores_rest_witness :
  3 <= countChar ":" "ann:pw:Ann:r1"
  /\ parseUser ("ann:pw:Ann:r1" ++ ":" ++ "r2:x") = parseUser "ann:pw:Ann:r1".
Proof.
  split; [vm_compute; lia | apply parseUser_ignores_rest; vm_compute; lia].
Defined.

(** X11. A user given with fewer than four fields, or with an empty fourth
    field, may enter every room: [allowed_rooms] is [["*"]].  A fourth
    field that is not empty but holds only commas and white space gives the
    user no room at all. *)
Theorem parseUser_rooms_default (userStr : string) :
  (countChar ":" userStr < 3 -> allowed_rooms (parseUser userStr) = Some ["*"])
  /\ (nth_error (split ":" userStr) 3 = Some EmptyString ->
      allowed_rooms (parseUser userStr) = Some ["*"])
  /\ (forall r, nth_error (split ":" userStr) 3 = Some r ->
                r <> EmptyString -> isBlankList r = true ->
                allowed_rooms (parseUser userStr) = Some []).
Proof.
  unfold parseUser. cbn [allowed_rooms]. split; [|split].
  - intros Hc.
    assert (N : nth_error (split ":" userStr) 3 = None).
    { apply nth_error_None. rewrite split_length. lia. }
    now rewrite N.
  - intros ->. reflexivity.
  - intros r -> Hne Hb.
    rewrite (proj2 (truthy_Some r) Hne), orElse_empty.
    now rewrite (proj2 (parseList_nil r) Hb).
Qed.

Lemma parseUser_rooms_default_witness :
  allowed_rooms (parseUser "ann:pw") = Some ["*"]
  /\ allowed_rooms (parseUser "ann:pw:Ann:") = Some ["*"]
  /\ allowed_rooms (parseUser "ann:pw:Ann: ,") = Some [].
Proof.
  split; [|split].
  - apply (proj1 (parseUser_rooms_default "ann:pw")). vm_compute. lia.
  - apply (proj1 (proj2 (parseUser_rooms_default "ann:pw:Ann:"))). reflexivity.
  - apply (proj2 (proj2 (parseUser_rooms_default "ann:pw:Ann: ,")) " ,").
    + reflexivity.
    + discriminate.
    + reflexivity.
Defined.



(** ** More on the announced address and the FFmpeg path *)




Lemma scanAllInterfaces_None (ifaces : Ifaces) (excludes : list string) :
  scanAllInterfaces ifaces excludes = None <->
  forall name v, In (name, v) ifaces ->
                 isExcluded excludes name = true
                 \/ truthy (findValidAddress v) = false.
Proof.
  induction ifaces as [|[name v] rest IH]; simpl.
  - split; [intros _ ? ? [] | reflexivity].
  - destruct (isExcluded excludes name) eqn:Ex.
    + rewrite IH. split.
      * intros H n w [[= <- <-]|Hin]; [now left | now apply H].
      * intros H n w Hin. apply H. now right.
    + destruct (truthy (findValidAddress v)) eqn:T.
      * split.
        -- intros H. apply truthy_inv in T as (a & Ha & _). congruence.
        -- intros H. destruct (H name v (or_introl eq_refl)); congruence.
      * rewrite IH. split.
        -- intros H n w [[= <- <-]|Hin]; [now right | now apply H].
        -- intros H n w Hin. apply H. now right.
Qed.

(** X2. The scan does not give up while an interface is left.  On a table
    whose interface names are ASCII: if some interface that the exclusion
    list lets through has a non-empty first accepted address, the result of
    [getLocalIPv4] is the result of one of the two passes, hence the address
    of an accepted record of the table, and not the fallback return. *)
Theorem getLocalIPv4_complete (h : Host) (name : string)
  (v : option (list AddressRecord)) :
  forallb isAscii (keys (os_networkInterfaces h)) = true ->
  In (name, v) (os_networkInterfaces h) ->
  isExcluded (virtualExcludes (os_platform h)) name = false ->
  truthy (findValidAddress v) = true ->
  (scanPriorities (os_platform h) (os_networkInterfaces h)
     (platformPriorities (os_platform h)) = Some (getLocalIPv4 h)
   \/ scanAllInterfaces (os_networkInterfaces h)
        (virtualExcludes (os_platform h)) = Some (getLocalIPv4 h))
  /\ exists name' addresses r,
       In (name', Some addresses) (os_networkInterfaces h)
       /\ In r addresses /\ isUsable r = true
       /\ address r = getLocalIPv4 h.
Proof.
  intros _ Hin Hex Ht.
  assert (Hpass :
            scanPriorities (os_platform h) (os_networkInterfaces h)
              (platformPriorities (os_platform h)) = Some (getLocalIPv4 h)
            \/ scanAllInterfaces (os_networkInterfaces h)
                 (virtualExcludes (os_platform h)) = Some (getLocalIPv4 h)).
  { destruct (getLocalIPv4_cases h) as [Hp | [[_ Hs] | (_ & Hs & _)]];
      [now left | now right |].
    exfalso.
    destruct (proj1 (scanAllInterfaces_None _ _) Hs name v Hin); congruence. }
  split; [exact Hpass|].
  destruct Hpass as [Hp|Hs].
  - apply scanPriorities_Some in Hp as (n & m & _ & _ & Hf & _).
    apply findValidAddress_Some in Hf as (l & r & Hl & Hr & Ha & Hu).
    exists m, l, r. split; [now apply lookup_Some_In | tauto].
  - apply scanAllInterfaces_Some in Hs as (pre & n & w & post & Heq & _ & Hf & _).
    apply findValidAddress_Some in Hf as (l & r & -> & Hr & Ha & Hu).
    exists n, l, r. split; [|tauto].
    rewrite Heq. apply in_or_app. right. now left.
Qed.

Lemma getLocalIPv4_complete_witness :
  let h := mkHost freebsd
             [("lo0", Some [mkAddress "IPv4" "127.0.0.1" true]);
              ("em0", Some [mkAddress "IPv6" "fe80::1" false; lanRecord])]
             noFiles noEnv in
  getLocalIPv4 h = "192.168.1.5"
  /\ (scanPriorities (os_platform h) (os_networkInterfaces h)
        (platformPriorities (os_platform h)) = Some (getLocalIPv4 h)
      \/ scanAllInterfaces (os_networkInterfaces h)
           (virtualExcludes (os_platform h)) = Some (getLocalIPv4 h))
  /\ exists name' addresses r,
       In (name', Some addresses) (os_networkInterfaces h)
       /\ In r addresses /\ isUsable r = true
       /\ address r = getLocalIPv4 h.
Proof.
  intros h. split; [reflexivity|].
  apply (getLocalIPv4_complete h "em0"
           (Some [mkAddress "IPv6" "fe80::1" false; lanRecord])).
  - reflexivity.
  - simpl. right. now left.
  - reflexivity.
  - reflexivity.
Defined.

Lemma lookup_Permutation (ifaces ifaces' : Ifaces) (k : string) :
  Permutation ifaces ifaces' -> NoDup (keys ifaces) ->
  lookup ifaces k = lookup ifaces' k.
Proof.
  intros HP. induction HP as [|[n v] l l' HP IH|[n v] [m w] l|l l' l'' HP1 IH1 HP2 IH2];
    intros Hnd.
  - reflexivity.
  - simpl. destruct (n =? k); [reflexivity|].
    apply IH. now inversion Hnd.
  - simpl. destruct (n =? k) eqn:En; destruct (m =? k) eqn:Em; try reflexivity.
    apply String.eqb_eq in En, Em. subst.
    inversion Hnd as [|? ? Hnotin _]. exfalso. apply Hnotin. now left.
  - rewrite IH1 by assumption. apply IH2.
    unfold keys in *. eapply Permutation_NoDup; [|exact Hnd].
    now apply Permutation_map.
Qed.

(** X3. On every platform but Windows the priority pass looks interfaces up
    by name, so it does not depend on the order of the interface table:
    two tables with the same entries (names pairwise distinct) give the same
    priority-pass result, and when that result is an address it is what
    [getLocalIPv4] returns on both hosts. *)
Theorem priority_pass_order_independent (h h' : Host) :
  os_platform h' = os_platform h ->
  isWin32 (os_platform h) = false ->
  NoDup (keys (os_networkInterfaces h)) ->
  Permutation (os_networkInterfaces h) (os_networkInterfaces h') ->
  scanPriorities (os_platform h') (os_networkInterfaces h')
    (platformPriorities (os_platform h'))
  = scanPriorities (os_platform h) (os_networkInterfaces h)
      (platformPriorities (os_platform h))
  /\ forall a,
       scanPriorities (os_platform h) (os_networkInterfaces h)
         (platformPriorities (os_platform h)) = Some a ->
       getLocalIPv4 h = a /\ getLocalIPv4 h' = a.
Proof.
  intros Hpl Hw Hnd HP. rewrite Hpl.
  assert (E : forall priorities,
             scanPriorities (os_platform h) (os_networkInterfaces h') priorities
             = scanPriorities (os_platform h) (os_networkInterfaces h) priorities).
  { induction priorities as [|n rest IH]; [reflexivity|]. simpl.
    unfold matchingIfaces. rewrite Hw. simpl.
    rewrite <- (lookup_Permutation _ _ n HP Hnd), IH. reflexivity. }
  split; [apply E|].
  intros a Ha. unfold getLocalIPv4. rewrite Hpl, E, Ha. now split.
Qed.

Lemma priority_pass_order_independent_witness :
  let h := mkHost linux
             [("enp3s0", Some [mkAddress "IPv4" "10.0.0.9" false]);
              ("eth0", Some [lanRecord])] noFiles noEnv in
  let h' := mkHost linux
              [("eth0", Some [lanRecord]);
               ("enp3s0", Some [mkAddress "IPv4" "10.0.0.9" false])] noFiles noEnv in
  getLocalIPv4 h = "192.168.1.5" /\ getLocalIPv4 h' = "192.168.1.5".
Proof.
  intros h h'.
  apply (proj2 (priority_pass_order_independent h h' eq_refl eq_refl
                  ltac:(repeat constructor; simpl; intuition discriminate)
                  (perm_swap _ _ _))).
  reflexivity.
Defined.

(** X4. [RTMP_FFMPEG_PATH] always completes normally with a non-empty
    string.  A non-empty [RTMP_FFMPEG_PATH] variable is used as it is,
    whether or not the file exists; otherwise the result is one of the
    platform's candidate paths, and it exists on disk as soon as any
    candidate does. *)
Theorem RTMP_FFMPEG_PATH_total (h : Host) :
  exists p,
    RTMP_FFMPEG_PATH h = Normal (Some p)
    /\ p <> EmptyString
    /\ (forall s, process_env h "RTMP_FFMPEG_PATH" = Some s ->
                  s <> EmptyString -> p = s)
    /\ (process_env h "RTMP_FFMPEG_PATH" = None
        \/ process_env h "RTMP_FFMPEG_PATH" = Some EmptyString ->
        In p (platformPaths (os_platform h))
        /\ ((exists c, In c (platformPaths (os_platform h))
                       /\ fs_exists h c = true) ->
            fs_exists h p = true)).
Proof.
  unfold RTMP_FFMPEG_PATH, PLATFORM.
  destruct (process_env h "RTMP_FFMPEG_PATH") as [s|] eqn:Env.
  - destruct (truthy (Some s)) eqn:T.
    + apply truthy_Some in T. exists s.
      split; [reflexivity|]. split; [exact T|]. split.
      * now intros t [= ->].
      * intros [H|H]; [discriminate | injection H as ->; contradiction].
    + assert (Hs : s = EmptyString)
        by (destruct s; [reflexivity | discriminate]).
      subst s.
      destruct (getFFmpegPath_returns h (os_platform h)) as (p & Hp & Hin & Hne).
      exists p. split; [exact Hp|]. split; [exact Hne|]. split.
      * intros t [= <-] Ht. contradiction.
      * intros _. split; [exact Hin|]. intros Hex.
        destruct (first_hit (fs_exists h) _ Hex)
          as (pre & x & post & Hsplit & Hpre & Hx).
        rewrite <- getFFmpegPathT_erase in Hp. unfold getFFmpegPathT in Hp.
        rewrite Hsplit in Hp at 1. rewrite tryPathsT_hit in Hp by assumption.
        simpl in Hp. injection Hp as <-. exact Hx.
  - destruct (getFFmpegPath_returns h (os_platform h)) as (p & Hp & Hin & Hne).
    exists p. simpl. split; [exact Hp|]. split; [exact Hne|]. split.
    + discriminate.
    + intros _. split; [exact Hin|]. intros Hex.
      destruct (first_hit (fs_exists h) _ Hex)
        as (pre & x & post & Hsplit & Hpre & Hx).
      rewrite <- getFFmpegPathT_erase in Hp. unfold getFFmpegPathT in Hp.
      rewrite Hsplit in Hp at 1. rewrite tryPathsT_hit in Hp by assumption.
      simpl in Hp. injection Hp as <-. exact Hx.
Qed.

(** ** Integer settings *)

Example parseInt_samples :
  parseInt (Some "  40000/udp") = Some 40000%Z
  /\ parseInt (Some "-12") = Some (-12)%Z
  /\ parseInt (Some "+7.9") = Some 7%Z
  /\ parseInt (Some "0x1F") = Some 31%Z
  /\ parseInt (Some "1e3") = Some 1%Z
  /\ parseInt (Some "port") = None
  /\ parseInt (Some EmptyString) = None
  /\ parseInt None = None
  /\ parseInt (Some "0x") = None
  /\ parseInt (Some "- 5") = None.
Proof. repeat split; reflexivity. Qed.

Lemma isDigit_facts (c : ascii) :
  isDigit c = true ->
  isWhiteSpace c = false
  /\ Ascii.eqb c "-" = false /\ Ascii.eqb c "+" = false
  /\ Ascii.eqb c "x" = false /\ Ascii.eqb c "X" = false
  /\ exists v, digitValue 10 c = Some v.
Proof.
  destruct c as [[] [] [] [] [] [] [] []]; intros H;
    try discriminate H; repeat split; eexists; reflexivity.
Qed.

Lemma notDigit_digitValue (c : ascii) :
  isDigit c = false -> digitValue 10 c = None.
Proof.
  destruct c as [[] [] [] [] [] [] [] []]; intros H;
    try discriminate H; reflexivity.
Qed.

Lemma parseDigits_cons (radix : N) (c : ascii) (s : string) (acc : option N)
  (v : N) :
  digitValue radix c = Some v ->
  parseDigits radix (String c s) acc
  = parseDigits radix s
      (Some (radix * match acc with Some a => a | None => 0 end + v)%N).
Proof. intros H. simpl. now rewrite H. Qed.

Lemma parseDigits_start (c : ascii) (s : string) :
  isDigit c = true ->
  parseDigits 10 (String c s) None = parseDigits 10 (String c s) (Some 0%N).
Proof.
  intros H. destruct (isDigit_facts c H) as (_ & _ & _ & _ & _ & v & Hv).
  now rewrite !(parseDigits_cons 10 c s _ v Hv).
Qed.

(** Reading a run of decimal digits stops at the first other character. *)
Lemma parseDigits_app (digits : string) (c : ascii) (rest : string)
  (acc : option N) :
  allDigits digits = true -> isDigit c = false ->
  parseDigits 10 (digits ++ String c rest) acc = parseDigits 10 digits acc.
Proof.
  unfold allDigits. revert acc.
  induction digits as [|d digits IH]; intros acc Hd Hc.
  - simpl. now rewrite (notDigit_digitValue c Hc).
  - simpl in Hd. apply andb_true_iff in Hd as [Hd1 Hd2].
    destruct (isDigit_facts d Hd1) as (_ & _ & _ & _ & _ & v & Hv).
    simpl append. rewrite !(parseDigits_cons 10 d _ _ v Hv). now apply IH.
Qed.

Lemma parseDigits_uint_pos (d : Decimal.uint) (a : positive) :
  parseDigits 10 (NilEmpty.string_of_uint d) (Some (N.pos a))
  = Some (N.pos (Pos.of_uint_acc d a)).
Proof.
  revert a. induction d; intros a; [reflexivity| | | | | | | | | |];
    cbn [NilEmpty.string_of_uint Pos.of_uint_acc];
    erewrite parseDigits_cons by reflexivity;
    rewrite <- IHd; f_equal; f_equal; try (simpl (N_of_ascii _)); lia.
Qed.

Lemma parseDigits_uint (d : Decimal.uint) :
  parseDigits 10 (NilEmpty.string_of_uint d) (Some 0%N) = Some (Pos.of_uint d).
Proof.
  induction d; [reflexivity| | | | | | | | | |];
    cbn [NilEmpty.string_of_uint Pos.of_uint];
    erewrite parseDigits_cons by reflexivity;
    [exact IHd | apply parseDigits_uint_pos ..].
Qed.

Lemma allDigits_uint (d : Decimal.uint) :
  allDigits (NilEmpty.string_of_uint d) = true.
Proof. unfold allDigits. induction d; simpl; auto. Qed.

Lemma decimal_cons (n : N) :
  exists c rest, decimal n = String c rest /\ isDigit c = true
                 /\ allDigits rest = true.
Proof.
  unfold decimal.
  assert (Hn : N.to_uint n <> Decimal.Nil).
  { destruct n; [discriminate | apply DecimalPos.Unsigned.to_uint_nonnil]. }
  pose proof (allDigits_uint (N.to_uint n)) as Ha.
  destruct (N.to_uint n); [contradiction| | | | | | | | | |];
    eexists; eexists; (split; [reflexivity | split; [reflexivity | exact Ha]]).
Qed.

Lemma parseDigits_decimal (n : N) :
  parseDigits 10 (decimal n) None = Some n.
Proof.
  destruct (decimal_cons n) as (c & rest & E & Hc & _).
  rewrite E, (parseDigits_start c rest Hc), <- E. unfold decimal.
  rewrite parseDigits_uint. f_equal. apply DecimalN.Unsigned.of_to.
Qed.

(** [parseInt] on a string that starts with a decimal digit and is not a
    hexadecimal literal reads its decimal digits. *)
Lemma parseInt_decimal (c : ascii) (rest : string) :
  isDigit c = true ->
  match rest with
  | String x _ => Ascii.eqb c "0" && (Ascii.eqb x "x" || Ascii.eqb x "X")
  | EmptyString => false
  end = false ->
  parseInt (Some (String c rest))
  = option_map Z.of_N (parseDigits 10 (String c rest) None).
Proof.
  intros Hc Hx.
  destruct (isDigit_facts c Hc) as (Hw & Hm & Hp & _).
  unfold parseInt. cbn [trimStart]. rewrite Hw, Hm, Hp. cbn [orb].
  destruct rest as [|x r].
  - now destruct (parseDigits 10 (String c EmptyString) None).
  - rewrite Hx. now destruct (parseDigits 10 (String c (String x r)) None).
Qed.

Lemma allDigits_not_hex (c : ascii) (rest : string) :
  allDigits rest = true ->
  match rest with
  | String x _ => Ascii.eqb c "0" && (Ascii.eqb x "x" || Ascii.eqb x "X")
  | EmptyString => false
  end = false.
Proof.
  destruct rest as [|x r]; [reflexivity|].
  unfold allDigits. simpl. intros H. apply andb_true_iff in H as [H _].
  destruct (isDigit_facts x H) as (_ & _ & _ & -> & -> & _).
  apply andb_false_r.
Qed.

(** X13. Round trip of the integer settings: when the variable holds the
    decimal numeral of a natural number [n] (up to 2^53), the setting is
    [n], except that zero gives the fallback: the RTC ports fall back to
    40000 and 40100, [maxStreams] to 1, [expirationHours] to 4. *)
Theorem integer_settings_round_trip (h : Host) (key : string) (n : N)
  (fallback : Z) :
  (n <= MAX_EXACT)%N ->
  process_env h key = Some (decimal n) ->
  parseIntOr (process_env h key) fallback
  = (if (n =? 0)%N then fallback else Z.of_N n)
  /\ (key = "SFU_MIN_PORT" ->
      RTC_MIN_PORT h = if (n =? 0)%N then 40000%Z else Z.of_N n)
  /\ (key = "SFU_MAX_PORT" ->
      RTC_MAX_PORT h = if (n =? 0)%N then 40100%Z else Z.of_N n)
  /\ (key = "RTMP_MAX_STREAMS" ->
      rtmp_maxStreams h = if (n =? 0)%N then 1%Z else Z.of_N n)
  /\ (key = "RTMP_EXPIRATION_HOURS" ->
      rtmp_expirationHours h = if (n =? 0)%N then 4%Z else Z.of_N n).
Proof.
  intros _ Henv.
  assert (P : parseInt (Some (decimal n)) = Some (Z.of_N n)).
  { destruct (decimal_cons n) as (c & rest & E & Hc & Hr).
    rewrite E, (parseInt_decimal c rest Hc (allDigits_not_hex c rest Hr)), <- E.
    now rewrite parseDigits_decimal. }
  assert (G : forall d, parseIntOr (process_env h key) d
                        = if (n =? 0)%N then d else Z.of_N n).
  { intros d. unfold parseIntOr. rewrite Henv, P.
    destruct n; [reflexivity|]. reflexivity. }
  split; [apply G|].
  unfold RTC_MIN_PORT, RTC_MAX_PORT, rtmp_maxStreams, rtmp_expirationHours.
  repeat split; intros <-; apply G.
Qed.

Lemma integer_settings_round_trip_witness :
  let h := mkHost linux [] noFiles (envWith "SFU_MIN_PORT" "50000") in
  decimal 50000 = "50000" /\ RTC_MIN_PORT h = 50000%Z.
Proof.
  intros h. split; [reflexivity|].
  apply (proj1 (proj2 (integer_settings_round_trip h "SFU_MIN_PORT" 50000 0%Z
                         ltac:(vm_compute; discriminate) eq_refl))).
  reflexivity.
Defined.

(** X14. An integer setting is read from the leading decimal digits only:
    whatever follows them, from the first character that is not a digit, is
    ignored, so ["40000/udp"], ["40000.9"] and ["40000"] give the same value.
    The one exception is a lone ["0"] followed by [x] or [X], which starts a
    hexadecimal literal. *)
Theorem parseInt_ignores_tail (digits : string) (c : ascii) (rest : string)
  (fallback : Z) :
  digits <> EmptyString ->
  allDigits digits = true ->
  isDigit c = false ->
  ~ (digits = "0" /\ (c = "x"%char \/ c = "X"%char)) ->
  parseInt (Some (digits ++ String c rest)%string) = parseInt (Some digits)
  /\ parseIntOr (Some (digits ++ String c rest)%string) fallback
     = parseIntOr (Some digits) fallback.
Proof.
  intros Hne Hd Hc Hx.
  assert (E : parseInt (Some (digits ++ String c rest)%string) = parseInt (Some digits)).
  { destruct digits as [|d ds]; [contradiction|].
    pose proof Hd as Hd'. unfold allDigits in Hd'. simpl in Hd'.
    apply andb_true_iff in Hd' as [Hd1 Hd2]. fold (allDigits ds) in Hd2.
    simpl append.
    rewrite (parseInt_decimal d ds Hd1 (allDigits_not_hex d ds Hd2)).
    rewrite (parseInt_decimal d (ds ++ String c rest) Hd1).
    - change (String d (ds ++ String c rest))
        with (String d ds ++ String c rest)%string.
      now rewrite parseDigits_app.
    - destruct ds as [|e ds'].
      + simpl append.
        destruct (Ascii.eqb d "0") eqn:E0; [|reflexivity].
        destruct (Ascii.eqb c "x") eqn:E1.
        * exfalso. apply Hx. apply Ascii.eqb_eq in E0, E1. subst. auto.
        * destruct (Ascii.eqb c "X") eqn:E2; [|reflexivity].
          exfalso. apply Hx. apply Ascii.eqb_eq in E0, E2. subst. auto.
      + simpl append. unfold allDigits in Hd2. simpl in Hd2.
        apply andb_true_iff in Hd2 as [He _].
        destruct (isDigit_facts e He) as (_ & _ & _ & -> & -> & _).
        apply andb_false_r. }
  split; [exact E|]. unfold parseIntOr. now rewrite E.
Qed.

Lemma parseInt_ignores_tail_witness :
  parseInt (Some ("40000" ++ String "/" "udp")%string) = parseInt (Some "40000")
  /\ parseIntOr (Some ("40000" ++ String "/" "udp")%string) 7 = parseIntOr (Some "40000") 7.
Proof.
  apply parseInt_ignores_tail.
  - discriminate.
  - reflexivity.
  - reflexivity.
  - intros [H _]. discriminate H.
Defined.

(** X15. An integer setting takes its fallback when the variable is unset,
    when it is empty or blank, and when its value is ASCII and its first
    non-blank character is neither a digit nor a sign; with a non-zero
    fallback the setting is never zero, so a port cannot be configured
    as 0. *)
Theorem integer_settings_fallback (h : Host) (key : string) (fallback : Z) :
  (process_env h key = None -> parseIntOr (process_env h key) fallback = fallback)
  /\ (forall s, process_env h key = Some s -> allWhiteSpace s = true ->
                parseIntOr (process_env h key) fallback = fallback)
  /\ (forall s c rest,
         process_env h key = Some s -> isAscii s = true ->
         trimStart s = String c rest ->
         isDigit c = false -> c <> "-"%char -> c <> "+"%char ->
         parseIntOr (process_env h key) fallback = fallback)
  /\ (fallback <> 0%Z -> parseIntOr (process_env h key) fallback <> 0%Z).
Proof.
  split; [|split; [|split]].
  - intros ->. reflexivity.
  - intros s -> Hw. apply trimStart_empty in Hw.
    unfold parseIntOr, parseInt. now rewrite Hw.
  - intros s c rest -> _ Ht Hc Hm Hp.
    unfold parseIntOr, parseInt. rewrite Ht.
    apply Ascii.eqb_neq in Hm, Hp. rewrite Hm, Hp. cbn [orb].
    assert (H0 : Ascii.eqb c "0" = false).
    { destruct (Ascii.eqb c "0") eqn:E; [|reflexivity].
      apply Ascii.eqb_eq in E. subst. discriminate. }
    rewrite H0. cbn [andb].
    assert (P : parseDigits 10 (String c rest) None = None)
      by (simpl; now rewrite (notDigit_digitValue c Hc)).
    destruct rest; now rewrite P.
  - intros Hf. unfold parseIntOr.
    destruct (parseInt (process_env h key)) as [z|]; [|exact Hf].
    destruct (z =? 0)%Z eqn:E; [exact Hf|]. now apply Z.eqb_neq.
Qed.

Lemma integer_settings_fallback_witness :
  RTC_MAX_PORT linuxHost = 40100%Z
  /\ RTC_MIN_PORT (mkHost linux [] noFiles (envWith "SFU_MIN_PORT" "  ")) = 40000%Z
  /\ rtmp_maxStreams (mkHost linux [] noFiles (envWith "RTMP_MAX_STREAMS" " many")) = 1%Z
  /\ RTC_MIN_PORT (mkHost linux [] noFiles (envWith "SFU_MIN_PORT" "0")) <> 0%Z.
Proof.
  split; [|split; [|split]].
  - apply (proj1 (integer_settings_fallback linuxHost "SFU_MAX_PORT" 40100)).
    reflexivity.
  - apply (proj1 (proj2 (integer_settings_fallback _ "SFU_MIN_PORT" 40000)) "  ");
      reflexivity.
  - apply (proj1 (proj2 (proj2 (integer_settings_fallback _ "RTMP_MAX_STREAMS" 1)))
             " many" "m"%char "any"); try reflexivity; discriminate.
  - apply (proj2 (proj2 (proj2 (integer_settings_fallback _ "SFU_MIN_PORT" 40000)))).
    discriminate.
Defined.

(** ** Witnesses for the announced address and the FFmpeg path *)


Lemma RTMP_FFMPEG_PATH_total_witness :
  exists p,
    RTMP_FFMPEG_PATH macHostWithBrew = Normal (Some p)
    /\ p <> EmptyString
    /\ fs_exists macHostWithBrew p = true.
Proof.
  destruct (RTMP_FFMPEG_PATH_total macHostWithBrew) as (p & Hp & Hne & _ & Hd).
  exists p. split; [exact Hp|]. split; [exact Hne|].
  apply Hd; [now left|].
  exists "/opt/homebrew/bin/ffmpeg". split; [simpl; tauto | reflexivity].
Defined.

(** ** Address resolution with its exceptions *)

Example read_failure_sample :
  getLocalIPv4C (mkRawHost linux (Throw "ERR_SYSTEM_ERROR") noFiles noEnv)
  = Throw "ERR_SYSTEM_ERROR".
Proof. reflexivity. Qed.

Example missing_address_sample :
  getLocalIPv4C
    (mkRawHost linux
       (Normal [("eth0", Some [mkRawRecord "IPv4" None false])]) noFiles noEnv)
  = Throw "TypeError"
  /\ getLocalIPv4C
       (mkRawHost linux
          (Normal [("eth0", Some [mkRawRecord "IPv6" None false;
                                  mkRawRecord "IPv4" (Some "192.168.1.5") false;
                                  mkRawRecord "IPv4" None false])])
          noFiles noEnv)
     = Normal "192.168.1.5".
Proof. split; reflexivity. Qed.

Lemma isUsableC_cook (r : RawRecord) :
  hasAddress r = true -> isUsableC r = Normal (isUsable (cookRecord r)).
Proof.
  unfold hasAddress, isUsableC, isUsable, cookRecord. simpl.
  destruct ((raw_family r =? "IPv4") && negb (raw_internal r)); simpl.
  - destruct (raw_address r); [reflexivity | discriminate].
  - reflexivity.
Qed.

Lemma isUsable_cook_address (r : RawRecord) :
  hasAddress r = true -> isUsable (cookRecord r) = true ->
  raw_address r = Some (address (cookRecord r)).
Proof.
  unfold hasAddress, isUsable, cookRecord. simpl.
  destruct ((raw_family r =? "IPv4") && negb (raw_internal r)); simpl.
  - destruct (raw_address r); [reflexivity | discriminate].
  - discriminate.
Qed.

Lemma findValidAddressC_cook (v : option (list RawRecord)) :
  match v with Some l => forallb hasAddress l | None => true end = true ->
  findValidAddressC v = Normal (findValidAddress (cookList v)).
Proof.
  destruct v as [l|]; [|reflexivity]. simpl.
  induction l as [|r rest IH]; [reflexivity|].
  simpl. intros H. apply andb_true_iff in H as [Hr Hrest].
  rewrite (isUsableC_cook r Hr). simpl.
  destruct (isUsable (cookRecord r)) eqn:U.
  - simpl. now rewrite (isUsable_cook_address r Hr U).
  - exact (IH Hrest).
Qed.

Lemma lookupC_cook (t : RawIfaces) (k : string) :
  lookup (cookTable t) k = cookList (lookupC t k).
Proof.
  induction t as [|[name v] rest IH]; [reflexivity|].
  simpl. now destruct (name =? k).
Qed.

Lemma lookupC_present (t : RawIfaces) (k : string) :
  addressesPresent t = true ->
  match lookupC t k with Some l => forallb hasAddress l | None => true end = true.
Proof.
  induction t as [|[name v] rest IH]; [reflexivity|].
  simpl. intros H. apply andb_true_iff in H as [Hv Hrest].
  destruct (name =? k); [exact Hv | exact (IH Hrest)].
Qed.

Lemma keys_cookTable (t : RawIfaces) : keys (cookTable t) = map fst t.
Proof. unfold keys, cookTable. rewrite map_map. reflexivity. Qed.

Lemma matchingIfacesC_cook (platform : Platform) (t : RawIfaces) (ifName : string) :
  matchingIfacesC platform t ifName = matchingIfaces platform (cookTable t) ifName.
Proof. unfold matchingIfacesC, matchingIfaces. now rewrite keys_cookTable. Qed.

Lemma scanMatchingC_cook (t : RawIfaces) (names : list string) :
  addressesPresent t = true ->
  scanMatchingC t names = Normal (scanMatching (cookTable t) names).
Proof.
  intros H. induction names as [|m rest IH]; [reflexivity|].
  simpl. rewrite (findValidAddressC_cook _ (lookupC_present t m H)), lookupC_cook.
  simpl. now destruct (truthy (findValidAddress (cookList (lookupC t m)))).
Qed.

Lemma scanPrioritiesC_cook (platform : Platform) (t : RawIfaces)
  (priorities : list string) :
  addressesPresent t = true ->
  scanPrioritiesC platform t priorities
  = Normal (scanPriorities platform (cookTable t) priorities).
Proof.
  intros H. induction priorities as [|n rest IH]; [reflexivity|].
  simpl. rewrite (scanMatchingC_cook t _ H), matchingIfacesC_cook. simpl.
  now destruct (scanMatching (cookTable t) (matchingIfaces platform (cookTable t) n)).
Qed.

Lemma scanAllInterfacesC_cook (t : RawIfaces) (excludes : list string) :
  addressesPresent t = true ->
  scanAllInterfacesC t excludes = Normal (scanAllInterfaces (cookTable t) excludes).
Proof.
  induction t as [|[name v] rest IH]; [reflexivity|].
  simpl. intros H. apply andb_true_iff in H as [Hv Hrest].
  destruct (isExcluded excludes name); [exact (IH Hrest)|].
  rewrite (findValidAddressC_cook v Hv). simpl.
  destruct (truthy (findValidAddress (cookList v))); [reflexivity | exact (IH Hrest)].
Qed.

(** When the read returns and the records have the field that is read, the
    resolution completes normally, with the result computed on the table. *)
Lemma getLocalIPv4C_cook (raw : RawHost) (t : RawIfaces) :
  raw_networkInterfaces raw = Normal t ->
  addressesPresent t = true ->
  getLocalIPv4C raw = Normal (getLocalIPv4 (hostOf raw t)).
Proof.
  intros Hread H. unfold getLocalIPv4C, getLocalIPv4. rewrite Hread. simpl.
  rewrite (scanPrioritiesC_cook _ t _ H). simpl.
  destruct (scanPriorities (raw_platform raw) (cookTable t)
              (platformPriorities (raw_platform raw))); [reflexivity|].
  now rewrite (scanAllInterfacesC_cook t _ H).
Qed.

Lemma getIPv4C_cook (announced_ip environment : string) (is_docker : bool)
  (raw : RawHost) (t : RawIfaces) :
  raw_networkInterfaces raw = Normal t ->
  addressesPresent t = true ->
  getIPv4C announced_ip environment is_docker raw
  = Normal (getIPv4 announced_ip environment is_docker (hostOf raw t)).
Proof.
  intros Hread H. unfold getIPv4C, getIPv4.
  rewrite (getLocalIPv4C_cook raw t Hread H).
  destruct (truthy (Some announced_ip)); [reflexivity|].
  destruct (environment =? "development"); [now destruct is_docker|].
  now destruct (environment =? "production").
Qed.

Lemma cookTable_no_address (t : RawIfaces) :
  (forall name v, In (name, v) t ->
                  findValidAddress (cookList v) = None) ->
  forall name w, In (name, w) (cookTable t) ->
                 truthy (findValidAddress w) = false.
Proof.
  intros H name w Hin. unfold cookTable in Hin.
  apply in_map_iff in Hin as ([n v] & [= <- <-] & Hv).
  simpl. now rewrite (H n v Hv).
Qed.

(** An error raised by the read leaves the resolution as it is. *)
Lemma getLocalIPv4C_read_throws (raw : RawHost) (e : string) :
  raw_networkInterfaces raw = Throw e ->
  getLocalIPv4C raw = Throw e
  /\ forall mode, mode <> "production" ->
       getIPv4C EmptyString mode false raw = Throw e.
Proof.
  intros H.
  assert (HL : getLocalIPv4C raw = Throw e)
    by (unfold getLocalIPv4C; now rewrite H).
  split; [exact HL|]. intros mode Hm. unfold getIPv4C. rewrite HL. simpl.
  destruct (mode =? "development"); [reflexivity|].
  destruct (mode =? "production") eqn:E; [|reflexivity].
  apply String.eqb_eq in E. contradiction.
Qed.

(** C7 as the specification words it fails: the call of
    [os.networkInterfaces()] has no handler, so an error raised by the read
    leaves [getLocalIPv4], and [getIPv4] whenever it scans; no sentinel is
    returned. *)
Lemma interface_read_failure_propagates :
  let raw := mkRawHost linux (Throw "ERR_SYSTEM_ERROR") noFiles noEnv in
  getLocalIPv4C raw = Throw "ERR_SYSTEM_ERROR"
  /\ getIPv4C EmptyString "development" false raw = Throw "ERR_SYSTEM_ERROR"
  /\ getIPv4C EmptyString "development" false raw <> Normal SENTINEL.
Proof. repeat split; discriminate. Qed.

(** C7, as amended.  On every host whose interface read returns, with
    records that carry the [address] field wherever the predicate reads it,
    address resolution completes normally: [getLocalIPv4] and [getIPv4]
    return the value computed on the table, which is the sentinel for an
    empty table, for names mapped to no address array and for a table
    without an accepted record.  [getFFmpegPath] completes normally on
    every host, though [fs.accessSync] may throw at every candidate: with a
    non-empty candidate path, the first one when none exists, the default
    path for a platform without a row. *)
Theorem core_total_when_read_returns (raw : RawHost) (t : RawIfaces)
  (platform : Platform) (announced_ip environment : string) (is_docker : bool) :
  raw_networkInterfaces raw = Normal t ->
  addressesPresent t = true ->
  getLocalIPv4C raw = Normal (getLocalIPv4 (hostOf raw t))
  /\ getIPv4C announced_ip environment is_docker raw
     = Normal (getIPv4 announced_ip environment is_docker (hostOf raw t))
  /\ (t = [] -> getLocalIPv4C raw = Normal SENTINEL)
  /\ ((forall name v, In (name, v) t -> v = None) ->
      getLocalIPv4C raw = Normal SENTINEL)
  /\ ((forall name v, In (name, v) t -> findValidAddressC v = Normal None) ->
      getLocalIPv4C raw = Normal SENTINEL
      /\ forall mode, mode <> "production" ->
           getIPv4C EmptyString mode false raw = Normal SENTINEL)
  /\ (exists p, getFFmpegPath (hostOf raw t) platform = Normal (Some p)
                /\ p <> EmptyString)
  /\ ((forall y, In y (platformPaths platform) -> raw_fs_exists raw y = false) ->
      getFFmpegPath (hostOf raw t) platform
      = Normal (nth_error (platformPaths platform) 0))
  /\ (paths platform = None ->
      getFFmpegPath (hostOf raw t) platform = Normal (Some "/usr/bin/ffmpeg")).
Proof.
  intros Hread Hpresent.
  pose proof (getLocalIPv4C_cook raw t Hread Hpresent) as HL.
  pose proof (getIPv4C_cook EmptyString) as HI.
  assert (Hnone : (forall name v, In (name, v) t ->
                                  findValidAddress (cookList v) = None) ->
                  getLocalIPv4 (hostOf raw t) = SENTINEL).
  { intros H. apply getLocalIPv4_no_address. simpl.
    now apply cookTable_no_address. }
  split; [exact HL|].
  split; [now apply getIPv4C_cook|].
  split.
  { intros ->. rewrite HL, Hnone; [reflexivity | intros ? ? []]. }
  split.
  { intros H. rewrite HL, Hnone; [reflexivity|].
    intros name v Hin. now rewrite (H name v Hin). }
  split.
  { intros H.
    assert (Hs : getLocalIPv4 (hostOf raw t) = SENTINEL).
    { apply Hnone. intros name v Hin.
      assert (Hv : match v with Some l => forallb hasAddress l | None => true end = true).
      { unfold addressesPresent in Hpresent.
        exact (proj1 (forallb_forall _ t) Hpresent (name, v) Hin). }
      pose proof (findValidAddressC_cook v Hv) as E.
      rewrite (H name v Hin) in E. now injection E as <-. }
    split; [now rewrite HL, Hs|].
    intros mode Hm. rewrite (HI mode false raw t Hread Hpresent).
    now rewrite getIPv4_scans, Hs. }
  destruct (core_total (hostOf raw t) platform) as (Hp & Hfirst & Hrow & _).
  split; [exact Hp|]. split; [exact Hfirst | exact Hrow].
Qed.

Lemma core_total_when_read_returns_witness :
  let t := [("em0", None);
            ("lo0", Some [mkRawRecord "IPv4" (Some "127.0.0.1") true;
                          mkRawRecord "IPv6" None false])] in
  let raw := mkRawHost freebsd (Normal t) noFiles noEnv in
  getLocalIPv4C raw = Normal SENTINEL
  /\ getIPv4C EmptyString "staging" false raw = Normal SENTINEL
  /\ getFFmpegPath (hostOf raw t) freebsd = Normal (Some "/usr/bin/ffmpeg").
Proof.
  intros t raw.
  pose proof (core_total_when_read_returns raw t freebsd EmptyString "staging"
                false eq_refl eq_refl)
    as (_ & _ & _ & _ & Hnone & _ & _ & Hrow).
  assert (Hno : forall name v, In (name, v) t -> findValidAddressC v = Normal None).
  { intros name v [[= <- <-] | [[= <- <-] | []]]; reflexivity. }
  destruct (Hnone Hno) as [HL HI].
  split; [exact HL|]. split; [apply HI; discriminate | apply Hrow; reflexivity].
Defined.
